(** * openapi-to-llm-text: a shallow embedding of the converter

    The converter turns a decoded OpenAPI / Swagger document into a
    plain-text summary.  The embedding follows the TypeScript source
    function by function.  A document is modelled with the shape the
    [openapi-types] declarations give it, every field being optional
    because the code tests fields for presence (or truthiness) before it
    reads them.  A JavaScript object used as a map is an association list
    of its own keys in the order [Object.entries] enumerates them;
    [JS.ownPropertyOrder] gives that order from the order in which the
    keys were declared, and [JS.get] is a read [o[k]], which falls back on
    the members every object inherits. *)

From Stdlib Require Import String Ascii List Bool Arith Lia NArith Permutation.
From Stdlib Require Import DecimalString DecimalNat DecimalN.
Import ListNotations.
Set Warnings "-register-all".
Open Scope list_scope.
Open Scope string_scope.

(** ** JavaScript primitives used by the converter *)

Module JS.

(** [x ? .. : ..] on an optional string: [undefined] and [""] are falsy. *)
Definition truthy (x : option string) : bool :=
  match x with
  | Some s => negb (s =? "")
  | None => false
  end.

(** [x || d] on an optional string. *)
Definition or_else (x : option string) (d : string) : string :=
  match x with
  | Some s => if s =? "" then d else s
  | None => d
  end.

(** A template-literal hole [${x}]: an absent field prints as
    ["undefined"]. *)
Definition tmpl (x : option string) : string :=
  match x with
  | Some s => s
  | None => "undefined"
  end.

(** [s.split(sep)] for a one-character separator. *)
Fixpoint split (sep : ascii) (s : string) : list string :=
  match s with
  | EmptyString => [EmptyString]
  | String c rest =>
      if Ascii.eqb c sep then EmptyString :: split sep rest
      else match split sep rest with
           | [] => [String c EmptyString]
           | seg :: segs => String c seg :: segs
           end
  end.

(** [a.pop()], as a value: the last element, [undefined] on []. *)
Fixpoint pop (l : list string) : option string :=
  match l with
  | [] => None
  | [x] => Some x
  | _ :: t => pop t
  end.

(** [a.join(sep)]. *)
Fixpoint join (sep : string) (l : list string) : string :=
  match l with
  | [] => ""
  | [x] => x
  | x :: t => x ++ sep ++ join sep t
  end.

(** [a.slice(0, n)]. *)
Definition slice0 {A} (n : nat) (l : list A) : list A := firstn n l.

(** [a.includes(x)] on an array of strings. *)
Definition includes (l : list string) (x : string) : bool :=
  existsb (String.eqb x) l.

Definition upper_ascii (c : ascii) : ascii :=
  let n := nat_of_ascii c in
  if ((97 <=? n) && (n <=? 122))%nat then ascii_of_nat (n - 32) else c.

(** [s.toUpperCase()]; the converter applies it to the eight HTTP method
    names only, which are ASCII. *)
Fixpoint toUpperCase (s : string) : string :=
  match s with
  | EmptyString => EmptyString
  | String c rest => String (upper_ascii c) (toUpperCase rest)
  end.

(** Number to string, for the integers the converter prints. *)
Definition string_of_nat (n : nat) : string :=
  NilEmpty.string_of_uint (Nat.to_uint n).

(** [Object.keys(o)] and the own property of [o] under the key [k]. *)
Definition keys {A} (o : list (string * A)) : list string := map fst o.

Fixpoint lookup {A} (k : string) (o : list (string * A)) : option A :=
  match o with
  | [] => None
  | (k', v) :: rest => if k' =? k then Some v else lookup k rest
  end.

(** The read [o[k]] on a plain object: the own property when there is
    one, otherwise what the prototype chain holds under [k], given by
    [inherited]. *)
Definition get {A} (inherited : string -> option A) (k : string)
  (o : list (string * A)) : option A :=
  match lookup k o with
  | Some v => Some v
  | None => inherited k
  end.

(** The names of the functions every plain object inherits from
    [Object.prototype], [constructor] apart. *)
Definition prototypeMethods : list string :=
  ["toString"; "toLocaleString"; "valueOf"; "hasOwnProperty";
   "isPrototypeOf"; "propertyIsEnumerable"; "__defineGetter__";
   "__defineSetter__"; "__lookupGetter__"; "__lookupSetter__"].

(** A key that is an array index: the canonical decimal text of an
    integer from 0 to 2^32 - 2. *)
Definition arrayIndex (k : string) : option N :=
  match NilEmpty.uint_of_string k with
  | Some digits =>
      let n := N.of_uint digits in
      if (NilEmpty.string_of_uint (N.to_uint n) =? k) && (n <? 4294967295)%N
      then Some n
      else None
  | None => None
  end.

Fixpoint insertIndexed {A} (i : N) (x : A) (l : list (N * A))
  : list (N * A) :=
  match l with
  | [] => [(i, x)]
  | (j, y) :: rest =>
      if (i <? j)%N then (i, x) :: l else (j, y) :: insertIndexed i x rest
  end.

(** The own properties of [declared] whose key is an array index, in
    ascending order of the index. *)
Fixpoint indexedProperties {A} (declared : list (string * A))
  : list (N * (string * A)) :=
  match declared with
  | [] => []
  | entry :: rest =>
      match arrayIndex (fst entry) with
      | Some i => insertIndexed i entry (indexedProperties rest)
      | None => indexedProperties rest
      end
  end.

(** The order in which an object enumerates its own keys
    ([Object.keys], [Object.entries]) when they were created in the
    order of [declared], as a decoder of JSON or YAML creates them: the
    array indices first, in ascending numeric order, then the other keys
    in the order of their creation. *)
Definition ownPropertyOrder {A} (declared : list (string * A))
  : list (string * A) :=
  (map snd (indexedProperties declared) ++
   filter (fun entry =>
             match arrayIndex (fst entry) with
             | Some _ => false
             | None => true
             end) declared)%list.

(** [o[k] = v]: an existing key keeps its place, a new key goes last. *)
Fixpoint assign {A} (k : string) (v : A) (o : list (string * A))
  : list (string * A) :=
  match o with
  | [] => [(k, v)]
  | (k', v') :: rest =>
      if k' =? k then (k, v) :: rest else (k', v') :: assign k v rest
  end.

(** [a.push(x)] and [a.push(...xs)], as values. *)
Definition push {A} (a : list A) (x : A) : list A := (a ++ [x])%list.
Definition pushAll {A} (a xs : list A) : list A := (a ++ xs)%list.

End JS.

(** The text after the last ['/'] of a reference:
    [ref.split('/').pop()].  [split] never returns the empty array
    (lemma [split_not_nil]), so the [None] branch is dead. *)
Definition refName (ref : string) : string :=
  match JS.pop (JS.split "/" ref) with
  | Some seg => seg
  | None => ""
  end.

(** ** Data model *)

(** A value of an [enum] array ([any[]] in the declarations): the scalar
    values JSON offers.  The converter only prints these values, so a
    number is carried as the text JavaScript prints for it (["1"],
    ["0.5"], ["1e+21"]). *)
Inductive EnumValue : Type :=
| EnumStr (s : string)
| EnumNumber (printed : string)
| EnumBool (b : bool)
| EnumNull.

(** What [Array.prototype.join] prints for one element. *)
Definition enumText (v : EnumValue) : string :=
  match v with
  | EnumStr s => s
  | EnumNumber printed => printed
  | EnumBool true => "true"
  | EnumBool false => "false"
  | EnumNull => ""
  end.

(** The [type] field: a name, or (OpenAPI 3.1) a list of names. *)
Inductive TypeField : Type :=
| TypeName (s : string)
| TypeList (l : list string).

(** [SchemaObject | ReferenceObject]: one record, [$ref] being the only
    field of a reference. *)
Inductive Schema : Type := mkSchema {
  s_ref : option string;                          (* $ref *)
  s_allOf : option (list Schema);
  s_oneOf : option (list Schema);
  s_anyOf : option (list Schema);
  s_type : option TypeField;
  s_items : option Schema;
  s_properties : option (list (string * Schema));
  s_required : option (list string);
  s_enum : option (list EnumValue);
  s_format : option string
}.

Definition emptySchema : Schema :=
  mkSchema None None None None None None None None None None.

(** [schema.type === name]. *)
Definition typeIs (s : Schema) (name : string) : bool :=
  match s_type s with
  | Some (TypeName t) => t =? name
  | _ => false
  end.

(** [schema.type && typeof schema.type === 'string']. *)
Definition typeString (s : Schema) : option string :=
  match s_type s with
  | Some (TypeName t) => if t =? "" then None else Some t
  | _ => None
  end.

(** [s.type || 'inline'], as [join] or a template prints it. *)
Definition typeOrInline (s : Schema) : string :=
  match s_type s with
  | Some (TypeName t) => if t =? "" then "inline" else t
  | Some (TypeList l) => JS.join "," l
  | None => "inline"
  end.

Definition isSome {A} (x : option A) : bool :=
  match x with Some _ => true | None => false end.

(** ** resolveSchemaType *)

Inductive SchemaTypeContext : Type := parameter | requestBody | response.

Record ResolveSchemaTypeOptions : Type := mkOptions {
  context : SchemaTypeContext;
  includeFormat : option bool;
  includeProperties : option bool;
  limitProperties : option nat
}.

(** The options literal [{ context: c }] every caller passes. *)
Definition inContext (c : SchemaTypeContext) : ResolveSchemaTypeOptions :=
  mkOptions c None None None.

Definition isResponse (c : SchemaTypeContext) : bool :=
  match c with response => true | _ => false end.

Definition unknownValue (c : SchemaTypeContext) : string :=
  match c with parameter => "unknown" | _ => "Unknown" end.

(** The destructuring defaults at the head of [resolveSchemaType]. *)
Definition optIncludeFormat (o : ResolveSchemaTypeOptions) : bool :=
  match includeFormat o with
  | Some b => b
  | None => isResponse (context o)
  end.

Definition optIncludeProperties (o : ResolveSchemaTypeOptions) : bool :=
  match includeProperties o with
  | Some b => b
  | None => true
  end.

Definition optLimitProperties (o : ResolveSchemaTypeOptions) : option nat :=
  match limitProperties o with
  | Some n => Some n
  | None => match context o with requestBody => Some 3 | _ => None end
  end.

(** The callback mapped over the branches of a composition in
    request-body context. *)
Definition branchSummary (s : Schema) : string :=
  if JS.truthy (s_ref s) then refName (JS.tmpl (s_ref s))
  else if typeIs s "object" && isSome (s_properties s) then
    let props := JS.keys (match s_properties s with Some p => p | None => [] end) in
    if (length props <=? 3)%nat
    then "{" ++ JS.join ", " props ++ "}"
    else "{" ++ JS.join ", " (JS.slice0 3 props) ++ ", ...}"
  else typeOrInline s.

Definition compositionText (c : SchemaTypeContext) (kind : string)
  (branches : list Schema) : string :=
  match c with
  | requestBody =>
      kind ++ ": [" ++ JS.join ", " (map branchSummary branches) ++ "]"
  | _ => unknownValue c
  end.

Definition enumSuffix (vals : list EnumValue) : string :=
  " [" ++ JS.join ", " (map enumText vals) ++ "]".

(** [resolveSchemaType] on a schema that is present. *)
Fixpoint resolveSchemaNode (schema : Schema) (options : ResolveSchemaTypeOptions)
  {struct schema} : string :=
  let c := context options in
  match s_ref schema with
  | Some ref => JS.or_else (JS.pop (JS.split "/" ref)) (unknownValue c)
  | None =>
  match s_allOf schema with
  | Some branches => compositionText c "allOf" branches
  | None =>
  match s_oneOf schema with
  | Some branches => compositionText c "oneOf" branches
  | None =>
  match s_anyOf schema with
  | Some branches => compositionText c "anyOf" branches
  | None =>
  if typeIs schema "array" then
    match c with
    | parameter => "array"
    | _ =>
        match s_items schema with
        | None => "array"
        | Some items =>
            match s_ref items with
            | Some ref =>
                "Array of " ++ JS.or_else (JS.pop (JS.split "/" ref)) (unknownValue c)
            | None =>
                if typeIs items "object" then "Array of object"
                else "Array of " ++ resolveSchemaNode items options
            end
        end
    end
  else if typeIs schema "object" then
    let propKeys :=
      JS.keys (match s_properties schema with Some p => p | None => [] end) in
    if optIncludeProperties options && isSome (s_properties schema) &&
       (0 <? length propKeys)%nat
    then
      let propNames :=
        match optLimitProperties options with
        | Some ((S _) as limit) =>
            if (limit <? length propKeys)%nat
            then JS.join ", " (JS.slice0 limit propKeys) ++ "..."
            else JS.join ", " propKeys
        | _ => JS.join ", " propKeys
        end in
      "Object (" ++ propNames ++ ")"
    else "object"
  else if typeIs schema "string" || typeIs schema "integer" || typeIs schema "number" then
    (* let typeStr = schemaObj.type, one of the three names here *)
    let typeStr := match typeString schema with Some t => t | None => "" end in
    match s_enum schema with
    | Some vals => typeStr ++ enumSuffix vals
    | None =>
        if optIncludeFormat options && JS.truthy (s_format schema)
        then typeStr ++ " (format: " ++ JS.tmpl (s_format schema) ++ ")"
        else typeStr
    end
  else
    match typeString schema with
    | Some t => t
    | None => unknownValue c
    end
  end end end end.

Definition resolveSchemaType (schema : option Schema)
  (options : ResolveSchemaTypeOptions) : string :=
  match schema with
  | None => unknownValue (context options)
  | Some s => resolveSchemaNode s options
  end.

(** ** The document *)

(** The line-feed character of the ['\n'] escapes in the source. *)
Definition nl : string := String (ascii_of_nat 10) EmptyString.

Record MediaType : Type := mkMediaType {
  mt_schema : option Schema
}.

Record RequestBody : Type := mkRequestBody {
  rb_content : option (list (string * MediaType))
}.

Record Response : Type := mkResponse {
  r_description : option string;
  r_content : option (list (string * MediaType));
  r_schema : option Schema                        (* Swagger 2.0 *)
}.

(** [ParameterObject | ReferenceObject]. *)
Record ParameterObject : Type := mkParameter {
  p_ref : option string;                          (* $ref *)
  p_name : option string;
  p_in : option string;
  p_required : option bool;
  p_schema : option Schema;
  p_type : option string;                         (* Swagger 2.0 *)
  p_enum : option (list EnumValue);
  p_description : option string
}.

Record Operation : Type := mkOperation {
  op_summary : option string;
  op_parameters : option (list ParameterObject);
  op_requestBody : option RequestBody;
  op_responses : option (list (string * Response))
}.

(** A path item, key by key; a key that holds no operation object (a
    key such as [parameters], or a method set to [null]) carries [None]. *)
Definition PathItem : Type := list (string * option Operation).

Record SecurityScheme : Type := mkSecurityScheme {
  ss_type : option string;
  ss_in : option string;
  ss_name : option string;
  ss_scheme : option string
}.

Record Info : Type := mkInfo {
  i_title : option string;
  i_version : option string;
  i_description : option string
}.

Record Server : Type := mkServer {
  sv_url : option string;
  sv_description : option string
}.

Record Components : Type := mkComponents {
  c_schemas : option (list (string * Schema));
  c_securitySchemes : option (list (string * SecurityScheme));
  c_parameters : option (list (string * ParameterObject))
}.

(** [OpenAPIV2.Document | OpenAPIV3.Document | OpenAPIV3_1.Document]. *)
Record Document : Type := mkDocument {
  d_swagger : option string;
  d_info : Info;
  d_host : option string;
  d_basePath : option string;
  d_schemes : option (list string);
  d_servers : option (list Server);
  d_paths : option (list (string * option PathItem));
  d_definitions : option (list (string * Schema));
  d_securityDefinitions : option (list (string * SecurityScheme));
  d_parameters : option (list (string * ParameterObject));
  d_components : option Components
}.

Definition isSwagger2 (openApi : Document) : bool :=
  match d_swagger openApi with
  | Some v => v =? "2.0"
  | None => false
  end.

(** ** Header *)

Definition additionalUrl (server : Server) : string :=
  let description :=
    if JS.truthy (sv_description server)
    then " (" ++ JS.tmpl (sv_description server) ++ ")"
    else "" in
  "  - " ++ JS.tmpl (sv_url server) ++ description.

Definition formatHeader (info : Info) (servers : option (list Server))
  : list string :=
  let sections :=
    ["API: " ++ JS.tmpl (i_title info) ++ " v" ++ JS.tmpl (i_version info)] in
  let sections :=
    if JS.truthy (i_description info)
    then JS.push sections ("Description: " ++ JS.tmpl (i_description info))
    else sections in
  match servers with
  | Some (primaryServer :: others) =>
      let sections :=
        JS.push sections (nl ++ "Base URL: " ++ JS.tmpl (sv_url primaryServer)) in
      match others with
      | [] => sections
      | _ :: _ =>
          fold_left (fun acc server => JS.push acc (additionalUrl server))
            others (JS.push sections "Additional URLs:")
      end
  | _ => sections
  end.

(** ** Parameters *)

(** What the read [parameters[paramName]] yields when [paramName] is no
    own key of the collection, seen through the fields the converter
    reads of a parameter.  [constructor] is the function [Object] and
    the other inherited methods are functions called by their key: a
    function has a [name] and none of the other fields.  [__proto__] is
    the prototype object itself, which has none of the fields. *)
Definition inheritedParameter (paramName : string) : option ParameterObject :=
  if paramName =? "constructor" then
    Some (mkParameter None (Some "Object") None None None None None None)
  else if paramName =? "__proto__" then
    Some (mkParameter None None None None None None None None)
  else if JS.includes JS.prototypeMethods paramName then
    Some (mkParameter None (Some paramName) None None None None None None)
  else None.

Definition resolveParameterRef (ref : string) (openApi : Document)
  : option ParameterObject :=
  let paramName := refName ref in
  if negb (isSwagger2 openApi) then
    match d_components openApi with
    | Some components =>
        match c_parameters components with
        | Some params => JS.get inheritedParameter paramName params
        | None => None
        end
    | None => None
    end
  else
    match d_parameters openApi with
    | Some params => JS.get inheritedParameter paramName params
    | None => None
    end.

(** The type text of a parameter that resolved. *)
Definition parameterType (resolvedParam : ParameterObject) : string :=
  match p_schema resolvedParam with
  | Some schema => resolveSchemaType (Some schema) (inContext parameter)
  | None =>
      if JS.truthy (p_type resolvedParam) then
        let type := JS.tmpl (p_type resolvedParam) in
        if type =? "array" then "array"
        else if type =? "file" then "file"
        else
          match p_enum resolvedParam with
          | Some vals => type ++ enumSuffix vals
          | None => type
          end
      else "unknown"
  end.

Definition parameterLine (resolvedParam : ParameterObject) : string :=
  let required :=
    match p_required resolvedParam with
    | Some true => "required"
    | _ => "optional"
    end in
  let type := parameterType resolvedParam in
  let description := JS.or_else (p_description resolvedParam) "No description" in
  "    - " ++ JS.or_else (p_name resolvedParam) "undefined" ++ " (" ++
  JS.or_else (p_in resolvedParam) "undefined" ++ ", " ++ type ++ " (" ++
  required ++ ")): " ++ description.

(** One turn of the loop of [formatParameters]: [None] is [continue]. *)
Definition parameterStep (openApi : Document) (p : ParameterObject)
  : option string :=
  match p_ref p with
  | Some ref =>
      match resolveParameterRef ref openApi with
      | Some resolvedParam => Some (parameterLine resolvedParam)
      | None => None
      end
  | None => Some (parameterLine p)
  end.

Definition formatParameters (parameters : list ParameterObject)
  (openApi : Document) : list string :=
  let paramLines :=
    fold_left
      (fun paramLines p =>
         match parameterStep openApi p with
         | Some line => JS.push paramLines line
         | None => paramLines
         end)
      parameters [] in
  match paramLines with
  | [] => []
  | _ :: _ => "  Parameters:" :: paramLines
  end.

(** ** Request body and responses *)

Definition contentLines (indent : string) (c : SchemaTypeContext)
  (sections : list string) (content : list (string * MediaType)) : list string :=
  fold_left
    (fun sections entry =>
       let '(contentType, mediaType) := entry in
       let sections := JS.push sections (indent ++ "Content: " ++ contentType) in
       let schemaType := resolveSchemaType (mt_schema mediaType) (inContext c) in
       JS.push sections (indent ++ "Schema: " ++ schemaType))
    content sections.

Definition formatRequestBody (body : RequestBody) : list string :=
  let sections := ["  Request Body:"] in
  match rb_content body with
  | Some content => contentLines "    " requestBody sections content
  | None => sections
  end.

Definition formatResponses (responses : list (string * Response)) : list string :=
  fold_left
    (fun sections entry =>
       let '(statusCode, resp) := entry in
       let sections :=
         JS.push sections
           ("    " ++ statusCode ++ ": " ++
            JS.or_else (r_description resp) "No description") in
       match r_content resp with
       | Some content => contentLines "      " response sections content
       | None =>
           match r_schema resp with
           | Some schema =>
               let schemaType := resolveSchemaType (Some schema) (inContext response) in
               JS.push sections ("      Schema: " ++ schemaType)
           | None => sections
           end
       end)
    responses ["  Responses:"].

(** ** Operations and endpoints *)

Definition formatOperation (method path : string) (operation : Operation)
  (openApi : Document) : list string :=
  let sections := [JS.toUpperCase method ++ " " ++ path] in
  let sections :=
    if JS.truthy (op_summary operation)
    then JS.push sections ("  Summary: " ++ JS.tmpl (op_summary operation))
    else sections in
  let sections :=
    match op_parameters operation with
    | Some ((_ :: _) as parameters) =>
        JS.pushAll sections (formatParameters parameters openApi)
    | _ => sections
    end in
  let sections :=
    match op_requestBody operation with
    | Some body => JS.pushAll sections (formatRequestBody body)
    | None => sections
    end in
  let sections :=
    match op_responses operation with
    | Some responses => JS.pushAll sections (formatResponses responses)
    | None => sections
    end in
  JS.push sections "".

Definition allPossibleMethods : list string :=
  ["get"; "put"; "post"; "delete"; "options"; "head"; "patch"; "trace"].

Definition endpointsHeading : string := nl ++ "ENDPOINTS:" ++ nl.

(** The read [pathItem[method]] is of a key that [Object.keys] listed, an
    own key, so it is the own property. *)
Definition formatEndpoints (paths : list (string * option PathItem))
  (openApi : Document) : list string :=
  fold_left
    (fun sections entry =>
       let '(path, pathItem) := entry in
       match pathItem with
       | None => sections
       | Some pathItem =>
           let methods :=
             filter (JS.includes allPossibleMethods) (JS.keys pathItem) in
           fold_left
             (fun sections method =>
                match JS.lookup method pathItem with
                | Some (Some operation) =>
                    JS.pushAll sections (formatOperation method path operation openApi)
                | _ => sections
                end)
             methods sections
       end)
    paths [endpointsHeading].

(** ** Security schemes *)

Definition securityLine (schemeObj : SecurityScheme) : option string :=
  match ss_type schemeObj with
  | Some "oauth2" => Some "- OAuth2 authentication"
  | Some "apiKey" =>
      Some ("- API Key authentication (" ++ JS.tmpl (ss_in schemeObj) ++ ": " ++
            JS.tmpl (ss_name schemeObj) ++ ")")
  | Some "http" =>
      match ss_scheme schemeObj with
      | Some "bearer" => Some "- HTTP bearer authentication"
      | Some "basic" => Some "- HTTP basic authentication"
      | scheme => Some ("- HTTP " ++ JS.tmpl scheme ++ " authentication")
      end
  | Some "openIdConnect" => Some "- OpenID Connect authentication"
  | Some "basic" => Some "- HTTP basic authentication"
  | _ => None
  end.

Definition formatSecurity (securitySchemes : list (string * SecurityScheme))
  : list string :=
  let sections :=
    fold_left
      (fun sections entry =>
         match securityLine (snd entry) with
         | Some line => JS.push sections line
         | None => sections
         end)
      securitySchemes ["SECURITY:"] in
  JS.push sections "".

(** ** Schema listing *)

(** The virtual-schema registry: a JavaScript object, mutated in place
    by [formatSchema] and read back with [Object.entries]. *)
Abbreviation Registry := (list (string * Schema)) (only parsing).

Record SchemaResult : Type := mkResult {
  type : string;
  lines : list string
}.

Definition virtualName (parentSchemaName : option string) (inlineCounter : nat)
  : string :=
  "<" ++ JS.tmpl parentSchemaName ++ "__inline__" ++
  JS.string_of_nat inlineCounter ++ ">".

(** [branches.map(...)] of a top-level composition.  The callback reads and
    bumps [inlineCounter] and writes into the registry, so both are threaded
    through the traversal; the result is the mapped array with the registry
    as the callback left it. *)
Fixpoint mapBranches (parentSchemaName : option string)
  (branches : list Schema) (inlineCounter : nat)
  (virtualSchemasRegistry : option Registry)
  : list string * option Registry :=
  match branches with
  | [] => ([], virtualSchemasRegistry)
  | s :: rest =>
      if JS.truthy (s_ref s) then
        let '(names, registry) :=
          mapBranches parentSchemaName rest inlineCounter virtualSchemasRegistry in
        (refName (JS.tmpl (s_ref s)) :: names, registry)
      else if typeIs s "object" && isSome (s_properties s) then
        let name := virtualName parentSchemaName inlineCounter in
        let registry :=
          match virtualSchemasRegistry with
          | Some registry => Some (JS.assign name s registry)
          | None => None
          end in
        let '(names, registry) :=
          mapBranches parentSchemaName rest (S inlineCounter) registry in
        (name :: names, registry)
      else
        let '(names, registry) :=
          mapBranches parentSchemaName rest inlineCounter virtualSchemasRegistry in
        (typeOrInline s :: names, registry)
  end.

Definition formatComposition (kind : string) (branches : list Schema)
  (parentSchemaName : option string) (virtualSchemasRegistry : option Registry)
  : SchemaResult * option Registry :=
  let '(schemas, registry) :=
    mapBranches parentSchemaName branches 1 virtualSchemasRegistry in
  (mkResult (kind ++ " [" ++ JS.join ", " schemas ++ "]") [], registry).

(** The name a branch of a composition gets inside a property line. *)
Definition propertyBranch (s : Schema) : string :=
  if JS.truthy (s_ref s) then refName (JS.tmpl (s_ref s)) else typeOrInline s.

Definition propertyComposition (kind : string) (branches : list Schema) : string :=
  let schemas := map propertyBranch branches in
  match branches, schemas with
  | [first], [name] =>
      if isSome (s_ref first) then name
      else kind ++ " [" ++ JS.join ", " schemas ++ "]"
  | _, _ => kind ++ " [" ++ JS.join ", " schemas ++ "]"
  end.

(** The enum or format suffix of a primitive in the schema listing. *)
Definition primitiveText (typeStr : string) (s : Schema) : string :=
  match s_enum s with
  | Some vals => typeStr ++ enumSuffix vals
  | None =>
      if JS.truthy (s_format s)
      then typeStr ++ " (format: " ++ JS.tmpl (s_format s) ++ ")"
      else typeStr
  end.

Definition isPrimitive (s : Schema) : bool :=
  typeIs s "string" || typeIs s "integer" || typeIs s "number" ||
  typeIs s "boolean".

(** [typeStr] of one property of an object schema. *)
Definition propertyType (prop : Schema) : string :=
  match s_ref prop with
  | Some _ => "object"
  | None =>
  match s_allOf prop with
  | Some branches => propertyComposition "allOf" branches
  | None =>
  match s_oneOf prop with
  | Some branches => propertyComposition "oneOf" branches
  | None =>
  match s_anyOf prop with
  | Some branches => propertyComposition "anyOf" branches
  | None =>
  if typeIs prop "array" then "array"
  else if typeIs prop "object" then "object"
  else if isPrimitive prop then
    primitiveText (match typeString prop with Some t => t | None => "" end) prop
  else
    match typeString prop with
    | Some t => t
    | None => if isSome (s_properties prop) then "object" else "unknown"
    end
  end end end end.

Definition propertyLine (indent : string) (required : list string)
  (propName : string) (prop : Schema) : string :=
  let isRequired := JS.includes required propName in
  let requiredMarker := if isRequired then "*" else "" in
  indent ++ "- " ++ propName ++ requiredMarker ++ ": " ++ propertyType prop.

Definition itemsLines (indent : string) (items : option Schema) : list string :=
  match items with
  | Some items =>
      match s_ref items with
      | Some ref =>
          [indent ++ "items: " ++ JS.or_else (JS.pop (JS.split "/" ref)) "unknown"]
      | None =>
          if typeIs items "object" then [indent ++ "items: object"]
          else
            let itemType := resolveSchemaType (Some items) (inContext response) in
            [indent ++ "items: " ++ itemType]
      end
  | None => []
  end.

(** [formatSchema]: the result, and the registry as the call leaves it. *)
Definition formatSchema (schema : Schema) (indent : string)
  (parentSchemaName : option string) (virtualSchemasRegistry : option Registry)
  : SchemaResult * option Registry :=
  match s_allOf schema with
  | Some branches =>
      formatComposition "allOf" branches parentSchemaName virtualSchemasRegistry
  | None =>
  match s_oneOf schema with
  | Some branches =>
      formatComposition "oneOf" branches parentSchemaName virtualSchemasRegistry
  | None =>
  match s_anyOf schema with
  | Some branches =>
      formatComposition "anyOf" branches parentSchemaName virtualSchemasRegistry
  | None =>
  if typeIs schema "array" then
    (mkResult "array" (itemsLines indent (s_items schema)), virtualSchemasRegistry)
  else
    match s_properties schema with
    | Some properties =>
        let required := match s_required schema with Some r => r | None => [] end in
        let lines :=
          fold_left
            (fun lines entry =>
               JS.push lines (propertyLine indent required (fst entry) (snd entry)))
            properties [] in
        (mkResult "object" lines, virtualSchemasRegistry)
    | None =>
        if isPrimitive schema then
          (mkResult
             (primitiveText (match typeString schema with Some t => t | None => "" end)
                schema) [],
           virtualSchemasRegistry)
        else
          match typeString schema with
          | Some t => (mkResult t [], virtualSchemasRegistry)
          | None => (mkResult "unknown" [], virtualSchemasRegistry)
          end
    end
  end end end.

(** The block of one named schema: its heading line, its body, a blank. *)
Definition schemaBlock (sections : list string) (schemaName : string)
  (result : SchemaResult) : list string :=
  let sections := JS.push sections (schemaName ++ ": " ++ type result) in
  let sections := JS.pushAll sections (lines result) in
  JS.push sections "".

(** One turn of the outer loop of [formatSchemas]. *)
Definition formatSchemaEntry (sections : list string) (entry : string * Schema)
  : list string :=
  let '(schemaName, schemaObj) := entry in
  let virtualSchemasForParent : Registry := [] in
  let '(result, registry) :=
    formatSchema schemaObj "  " (Some schemaName) (Some virtualSchemasForParent) in
  let virtualSchemasForParent :=
    match registry with Some r => r | None => virtualSchemasForParent end in
  let sections := schemaBlock sections schemaName result in
  fold_left
    (fun sections virtual =>
       let '(virtualName, virtualSchema) := virtual in
       let '(virtualResult, _) :=
         formatSchema virtualSchema "  " (Some virtualName) (Some []) in
       schemaBlock sections virtualName virtualResult)
    virtualSchemasForParent sections.

Definition formatSchemas (schemas : list (string * Schema)) : list string :=
  fold_left formatSchemaEntry schemas ["SCHEMAS:"; "> * = required" ++ nl].

(** ** Entry point *)

(** The constant [baseUrl] of the Swagger 2.0 branch. *)
Definition swaggerBaseUrl (openApi : Document) : option string :=
  if JS.truthy (d_host openApi) && JS.truthy (d_basePath openApi)
  then
    let scheme :=
      match d_schemes openApi with
      | Some (first :: _) => JS.or_else (Some first) "https"
      | _ => "https"
      end in
    Some (scheme ++ "://" ++ JS.tmpl (d_host openApi) ++
          JS.tmpl (d_basePath openApi))
  else None.

(** [openApi.paths || {}]. *)
Definition pathsOf (openApi : Document) : list (string * option PathItem) :=
  match d_paths openApi with
  | Some paths => paths
  | None => []
  end.

(** The list [sections] as [openApiToLlmText] holds it before the join. *)
Definition documentSections (openApi : Document) : list string :=
  if isSwagger2 openApi then
    let baseUrl := swaggerBaseUrl openApi in
    let sections :=
      formatHeader (d_info openApi)
        (if JS.truthy baseUrl then Some [mkServer baseUrl None] else None) in
    let sections :=
      JS.pushAll sections (formatEndpoints (pathsOf openApi) openApi) in
    let sections :=
      match d_definitions openApi with
      | Some definitions => JS.pushAll sections (formatSchemas definitions)
      | None => sections
      end in
    match d_securityDefinitions openApi with
    | Some securityDefinitions =>
        JS.pushAll sections (formatSecurity securityDefinitions)
    | None => sections
    end
  else
    let sections := formatHeader (d_info openApi) (d_servers openApi) in
    let sections :=
      JS.pushAll sections (formatEndpoints (pathsOf openApi) openApi) in
    let components := d_components openApi in
    let sections :=
      match components with
      | Some (mkComponents (Some schemas) _ _) =>
          JS.pushAll sections (formatSchemas schemas)
      | _ => sections
      end in
    match components with
    | Some (mkComponents _ (Some securitySchemes) _) =>
        JS.pushAll sections (formatSecurity securitySchemes)
    | _ => sections
    end.

Definition openApiToLlmText (openApi : Document) : string :=
  JS.join nl (documentSections openApi).

(** * Notions used to state the properties *)

(** A reference node: [{ $ref: ref }]. *)
Definition referenceTo (ref : string) : Schema :=
  mkSchema (Some ref) None None None None None None None None None.

(** A node that declares a type and nothing else: [{ type: name }]. *)
Definition ofType (name : string) : Schema :=
  mkSchema None None None None (Some (TypeName name)) None None None None None.

(** An inline object: [{ type: 'object', properties: props }]. *)
Definition objectOf (props : list (string * Schema)) : Schema :=
  mkSchema None None None None (Some (TypeName "object")) None (Some props)
    None None None.

(** [{ allOf: branches }]. *)
Definition allOfSchema (branches : list Schema) : Schema :=
  mkSchema None (Some branches) None None None None None None None None.

(** [s] occurs inside [t]. *)
Definition Substring (s t : string) : Prop :=
  exists before after, t = before ++ s ++ after.

(** [hasSlash s]: some character of [s] is ['/']. *)
Fixpoint hasSlash (s : string) : bool :=
  match s with
  | EmptyString => false
  | String c rest => Ascii.eqb c "/" || hasSlash rest
  end.

(** The substring of [s] after its last ['/'] (all of [s] when it has
    none), written from the wording of the specification rather than from
    [split] and [pop]. *)
Fixpoint afterLastSlash (s : string) : string :=
  match s with
  | EmptyString => EmptyString
  | String c rest =>
      if hasSlash rest then afterLastSlash rest
      else if Ascii.eqb c "/" then rest
      else String c rest
  end.

(** The servers [formatHeader] is called with. *)
Definition headerServers (openApi : Document) : option (list Server) :=
  if isSwagger2 openApi then
    match swaggerBaseUrl openApi with
    | Some baseUrl => Some [mkServer (Some baseUrl) None]
    | None => None
    end
  else d_servers openApi.

(** The schema table and the security table of either version. *)
Definition schemaTable (openApi : Document) : option (list (string * Schema)) :=
  if isSwagger2 openApi then d_definitions openApi
  else match d_components openApi with
       | Some components => c_schemas components
       | None => None
       end.

Definition securityTable (openApi : Document)
  : option (list (string * SecurityScheme)) :=
  if isSwagger2 openApi then d_securityDefinitions openApi
  else match d_components openApi with
       | Some components => c_securitySchemes components
       | None => None
       end.

(** What follows the endpoints: the schema listing, then the security
    listing, each only when its table is there. *)
Definition trailingSections (openApi : Document) : list string :=
  (match schemaTable openApi with
   | Some schemas => formatSchemas schemas
   | None => []
   end ++
   match securityTable openApi with
   | Some schemes => formatSecurity schemes
   | None => []
   end)%list.

(** The document of the end-to-end example:
    [{openapi:'3.0.0', info:{title:'T',version:'1'}, servers:[{url:'/api'}],
      paths:{'/x':{get:{summary:'S', responses:{'200':{description:'OK'}}}}}}].
    The field [openapi] is never read and has no place in the record. *)
Definition endToEndDocument : Document :=
  mkDocument None (mkInfo (Some "T") (Some "1") None) None None None
    (Some [mkServer (Some "/api") None])
    (Some [("/x",
            Some [("get",
                   Some (mkOperation (Some "S") None None
                           (Some [("200", mkResponse (Some "OK") None None)])))])])
    None None None None.

(** The text the end-to-end example of the specification expects the output
    to begin with: two line feeds at its end. *)
Definition endToEndClaimedPrefix : string :=
  "API: T v1" ++ nl ++ nl ++ "Base URL: /api" ++ nl ++ nl ++ "ENDPOINTS:" ++ nl ++
  nl ++ "GET /x" ++ nl ++ "  Summary: S" ++ nl ++ "  Responses:" ++ nl ++
  "    200: OK" ++ nl ++ nl.

(** A Swagger 2.0 document with the given host, base path and schemes and
    nothing else. *)
Definition swaggerDocument (host basePath : option string)
  (schemes : option (list string)) : Document :=
  mkDocument (Some "2.0") (mkInfo (Some "T") (Some "1") None) host basePath
    schemes None None None None None None.

(** The collection a parameter reference is looked up in: the top-level
    [parameters] of a Swagger 2.0 document, [components.parameters] of an
    OpenAPI 3.x document. *)
Definition parameterCollection (openApi : Document)
  : option (list (string * ParameterObject)) :=
  if isSwagger2 openApi then d_parameters openApi
  else match d_components openApi with
       | Some components => c_parameters components
       | None => None
       end.

(** The reference string [ref] names no entry of that collection: the
    reference cannot be resolved, in the words of the specification. *)
Definition dangling (openApi : Document) (ref : string) : Prop :=
  match parameterCollection openApi with
  | Some collection => ~ In (afterLastSlash ref) (JS.keys collection)
  | None => True
  end.

(** The read of the collection under the name of [ref] yields nothing: the
    collection is absent, or the name is neither one of its own keys nor
    a member it inherits. *)
Definition unresolvable (openApi : Document) (ref : string) : Prop :=
  match parameterCollection openApi with
  | Some collection =>
      JS.lookup (afterLastSlash ref) collection = None /\
      inheritedParameter (afterLastSlash ref) = None
  | None => True
  end.

(** A parameter entry that is a reference which cannot be resolved. *)
Definition unresolvableParameter (openApi : Document) (p : ParameterObject) : Prop :=
  exists ref, p_ref p = Some ref /\ unresolvable openApi ref.

(** The entry [p] is rendered from the node [resolvedParam]: itself, or
    the node its reference resolves to. *)
Definition resolvesTo (openApi : Document) (p resolvedParam : ParameterObject) : Prop :=
  (p_ref p = None /\ resolvedParam = p) \/
  (exists ref, p_ref p = Some ref /\
               resolveParameterRef ref openApi = Some resolvedParam).

(** The operation with its [parameters] field removed. *)
Definition withoutParameters (operation : Operation) : Operation :=
  mkOperation (op_summary operation) None (op_requestBody operation)
    (op_responses operation).

(** The lines the loop of [formatParameters] collects. *)
Definition paramLinesOf (openApi : Document) (parameters : list ParameterObject)
  : list string :=
  flat_map
    (fun p => match parameterStep openApi p with
              | Some line => [line]
              | None => []
              end)
    parameters.

(** The layout of a parameter line. *)
Definition parameterLayout (name location type required description : string)
  : string :=
  "    - " ++ name ++ " (" ++ location ++ ", " ++ type ++ " (" ++ required ++
  ")): " ++ description.

(** A parameter entry [{ $ref: ref }], and a parameter node with nothing
    but a required flag. *)
Definition parameterRef (ref : string) : ParameterObject :=
  mkParameter (Some ref) None None None None None None None.

Definition bareParameter (required : bool) : ParameterObject :=
  mkParameter None None None (Some required) None None None None.

(** An OpenAPI 3.x document with the given component parameters and no
    paths. *)
Definition documentWithParameters (params : list (string * ParameterObject))
  : Document :=
  mkDocument None (mkInfo (Some "T") (Some "1") None) None None None None None
    None None None (Some (mkComponents None None (Some params))).

(** [hasSpace s]: some character of [s] is a blank. *)
Fixpoint hasSpace (s : string) : bool :=
  match s with
  | EmptyString => false
  | String c rest => Ascii.eqb c " " || hasSpace rest
  end.

(** A section other than the endpoints heading. *)
Definition notHeading (s : string) : Prop := s <> endpointsHeading.

(** The composition a node is rendered as: the first of [allOf], [oneOf]
    and [anyOf] that is present, with its branches. *)
Definition composition (s : Schema) : option (string * list Schema) :=
  match s_allOf s, s_oneOf s, s_anyOf s with
  | Some branches, _, _ => Some ("allOf", branches)
  | None, Some branches, _ => Some ("oneOf", branches)
  | None, None, Some branches => Some ("anyOf", branches)
  | None, None, None => None
  end.

(** How a branch of a composition is named inside a property line: by the
    trailing name of its reference, by the type it declares, or as
    ["inline"]. *)
Inductive branchNamed (branch : Schema) : string -> Prop :=
| named_by_reference (ref : string) :
    s_ref branch = Some ref -> ref <> "" ->
    branchNamed branch (afterLastSlash ref)
| named_by_type (t : string) :
    JS.truthy (s_ref branch) = false ->
    s_type branch = Some (TypeName t) -> t <> "" ->
    branchNamed branch t
| named_by_type_list (types : list string) :
    JS.truthy (s_ref branch) = false ->
    s_type branch = Some (TypeList types) ->
    branchNamed branch (JS.join "," types)
| named_inline :
    JS.truthy (s_ref branch) = false ->
    s_type branch = None \/ s_type branch = Some (TypeName "") ->
    branchNamed branch "inline".

(** An object schema with the given properties and required names. *)
Definition objectWith (props : list (string * Schema)) (required : list string)
  : Schema :=
  mkSchema None None None None (Some (TypeName "object")) None (Some props)
    (Some required) None None.

(** An inline object branch: not a reference, [type: 'object'], and a
    [properties] field. *)
Definition isInlineObject (s : Schema) : bool :=
  negb (JS.truthy (s_ref s)) && typeIs s "object" && isSome (s_properties s).

(** The elements of a list with their ordinals, counted from [start]. *)
Fixpoint numbered {A} (start : nat) (l : list A) : list (nat * A) :=
  match l with
  | [] => []
  | x :: rest => (start, x) :: numbered (S start) rest
  end.

(** The virtual schemas of a parent, written from the wording of the
    specification: its inline object branches in order, the n-th of them
    under the name made of the parent's name and the ordinal n. *)
Definition virtualSchemas (parent : string) (branches : list Schema) : Registry :=
  map (fun entry => (virtualName (Some parent) (fst entry), snd entry))
    (numbered 1 (filter isInlineObject branches)).

(** The branch list of a parent: a virtual name for an inline object
    branch, counted from [ordinal], the reference name or the type of any
    other branch. *)
Fixpoint branchNames (parent : string) (ordinal : nat) (branches : list Schema)
  : list string :=
  match branches with
  | [] => []
  | s :: rest =>
      if isInlineObject s
      then virtualName (Some parent) ordinal :: branchNames parent (S ordinal) rest
      else propertyBranch s :: branchNames parent ordinal rest
  end.

(** The block of a named schema when nothing was pushed before it. *)
Definition blockOf (entry : string * Schema) : list string :=
  let result := fst (formatSchema (snd entry) "  " (Some (fst entry)) (Some [])) in
  (fst entry ++ ": " ++ type result) :: (lines result ++ [""])%list.

(** The schema [Foo] of the example:
    [allOf: [{$ref: Bar}, {type: object, properties: {x, y}}]]. *)
Definition fooSchema : Schema :=
  allOfSchema [referenceTo "#/components/schemas/Bar";
               objectOf [("x", ofType "string"); ("y", ofType "integer")]].

(** An array schema: [{ type: 'array', items: items }]. *)
Definition arrayOf (items : Schema) : Schema :=
  mkSchema None None None None (Some (TypeName "array")) (Some items) None None
    None None.

(** [inner] wrapped in [depth] array schemas. *)
Fixpoint nestedArray (depth : nat) (inner : Schema) : Schema :=
  match depth with
  | 0 => inner
  | S d => arrayOf (nestedArray d inner)
  end.

(** [text] written [n] times. *)
Fixpoint repeatText (text : string) (n : nat) : string :=
  match n with
  | 0 => ""
  | S k => text ++ repeatText text k
  end.

(** The parameter entry gets a line: it is no reference, or its reference
    resolves. *)
Definition rendersParameter (openApi : Document) (p : ParameterObject) : bool :=
  match p_ref p with
  | Some ref => isSome (resolveParameterRef ref openApi)
  | None => true
  end.

(** The schema with its [items] and [format] fields removed. *)
Definition withoutItemsAndFormat (s : Schema) : Schema :=
  mkSchema (s_ref s) (s_allOf s) (s_oneOf s) (s_anyOf s) (s_type s) None
    (s_properties s) (s_required s) (s_enum s) None.

(** A section that closes a line: the empty section, which the join turns
    into a line feed, or a section that ends in a line feed itself. *)
Definition closing (x : string) : Prop := x = "" \/ exists b, x = b ++ nl.

(** A section list whose last section is closing. *)
Definition Closed (l : list string) : Prop :=
  exists front x, l = (front ++ [x])%list /\ closing x.

(** The document with other [servers] and [components], the fields only
    an OpenAPI 3.x document has. *)
Definition withOpenApi3Fields (d : Document) (servers : option (list Server))
  (components : option Components) : Document :=
  mkDocument (d_swagger d) (d_info d) (d_host d) (d_basePath d) (d_schemes d)
    servers (d_paths d) (d_definitions d) (d_securityDefinitions d)
    (d_parameters d) components.

(** The document with other values in the fields only a Swagger 2.0
    document has. *)
Definition withSwagger2Fields (d : Document) (host basePath : option string)
  (schemes : option (list string))
  (definitions : option (list (string * Schema)))
  (securityDefinitions : option (list (string * SecurityScheme)))
  (parameters : option (list (string * ParameterObject))) : Document :=
  mkDocument (d_swagger d) (d_info d) host basePath schemes (d_servers d)
    (d_paths d) definitions securityDefinitions parameters (d_components d).

(** The operations of a path item: its keys that are HTTP methods and hold
    an operation, in key order. *)
Definition operationsOf (pathItem : PathItem) : list (string * Operation) :=
  flat_map
    (fun entry =>
       if JS.includes allPossibleMethods (fst entry)
       then match snd entry with
            | Some operation => [(fst entry, operation)]
            | None => []
            end
       else [])
    pathItem.

(** The response without a [schema] that its [content] shadows. *)
Definition withoutShadowedSchema (resp : Response) : Response :=
  match r_content resp with
  | Some content => mkResponse (r_description resp) (Some content) None
  | None => resp
  end.

(** The security scheme types the converter knows. *)
Definition knownSecurityTypes : list string :=
  ["oauth2"; "apiKey"; "http"; "openIdConnect"; "basic"].

Definition knownScheme (schemeObj : SecurityScheme) : bool :=
  match ss_type schemeObj with
  | Some type => JS.includes knownSecurityTypes type
  | None => false
  end.

(** ** Invocations over a store

    In the source the registry is an object on the heap: [formatSchemas]
    allocates one per parent schema and one per virtual schema,
    [formatSchema] writes into the object it is handed, and
    [formatSchemas] enumerates it afterwards.  The definitions below keep
    that heap explicit and thread it through a call of the converter and
    on to the next, so that what one invocation leaves behind is there
    for the following one to see. *)

(** The heap of registry objects; a location is an index into it. *)
Abbreviation Heap := (list (list (string * Schema))) (only parsing).

(** The object literal [{}]: a new, empty object. *)
Definition allocate (heap : Heap) : nat * Heap :=
  (length heap, (heap ++ [[]])%list).

Definition readObject (loc : nat) (heap : Heap) : Registry :=
  nth loc heap [].

Fixpoint writeObject (loc : nat) (object : Registry) (heap : Heap) : Heap :=
  match heap, loc with
  | [], _ => []
  | _ :: rest, 0 => object :: rest
  | other :: rest, S loc => other :: writeObject loc object rest
  end.

(** [branches.map(...)] of a top-level composition, the assignment
    [virtualSchemasRegistry[virtualName] = s] being a write to the heap. *)
Fixpoint mapBranchesInPlace (parentSchemaName : option string)
  (branches : list Schema) (inlineCounter : nat)
  (virtualSchemasRegistry : option nat) (heap : Heap)
  : list string * Heap :=
  match branches with
  | [] => ([], heap)
  | s :: rest =>
      if JS.truthy (s_ref s) then
        let '(names, heap) :=
          mapBranchesInPlace parentSchemaName rest inlineCounter
            virtualSchemasRegistry heap in
        (refName (JS.tmpl (s_ref s)) :: names, heap)
      else if typeIs s "object" && isSome (s_properties s) then
        let name := virtualName parentSchemaName inlineCounter in
        let heap :=
          match virtualSchemasRegistry with
          | Some loc => writeObject loc (JS.assign name s (readObject loc heap)) heap
          | None => heap
          end in
        let '(names, heap) :=
          mapBranchesInPlace parentSchemaName rest (S inlineCounter)
            virtualSchemasRegistry heap in
        (name :: names, heap)
      else
        let '(names, heap) :=
          mapBranchesInPlace parentSchemaName rest inlineCounter
            virtualSchemasRegistry heap in
        (typeOrInline s :: names, heap)
  end.

Definition formatCompositionInPlace (kind : string) (branches : list Schema)
  (parentSchemaName : option string) (virtualSchemasRegistry : option nat)
  (heap : Heap) : SchemaResult * Heap :=
  let '(schemas, heap) :=
    mapBranchesInPlace parentSchemaName branches 1 virtualSchemasRegistry heap in
  (mkResult (kind ++ " [" ++ JS.join ", " schemas ++ "]") [], heap).

(** [formatSchema] with the registry given by its location.  Only the
    three composition cases touch the registry; the other cases are those
    of [formatSchema] above. *)
Definition formatSchemaInPlace (schema : Schema) (indent : string)
  (parentSchemaName : option string) (virtualSchemasRegistry : option nat)
  (heap : Heap) : SchemaResult * Heap :=
  match s_allOf schema with
  | Some branches =>
      formatCompositionInPlace "allOf" branches parentSchemaName
        virtualSchemasRegistry heap
  | None =>
  match s_oneOf schema with
  | Some branches =>
      formatCompositionInPlace "oneOf" branches parentSchemaName
        virtualSchemasRegistry heap
  | None =>
  match s_anyOf schema with
  | Some branches =>
      formatCompositionInPlace "anyOf" branches parentSchemaName
        virtualSchemasRegistry heap
  | None => (fst (formatSchema schema indent parentSchemaName None), heap)
  end end end.

(** The inner loop of [formatSchemas], over the entries of the registry
    of the parent: every virtual schema gets a new registry [{}]. *)
Definition formatVirtualInPlace (state : list string * Heap)
  (virtual : string * Schema) : list string * Heap :=
  let '(sections, heap) := state in
  let '(virtualName, virtualSchema) := virtual in
  let '(registry, heap) := allocate heap in
  let '(virtualResult, heap) :=
    formatSchemaInPlace virtualSchema "  " (Some virtualName) (Some registry) heap in
  (schemaBlock sections virtualName virtualResult, heap).

(** One turn of the outer loop of [formatSchemas]. *)
Definition formatSchemaEntryInPlace (state : list string * Heap)
  (entry : string * Schema) : list string * Heap :=
  let '(sections, heap) := state in
  let '(schemaName, schemaObj) := entry in
  let '(virtualSchemasForParent, heap) := allocate heap in
  let '(result, heap) :=
    formatSchemaInPlace schemaObj "  " (Some schemaName)
      (Some virtualSchemasForParent) heap in
  let sections := schemaBlock sections schemaName result in
  fold_left formatVirtualInPlace (readObject virtualSchemasForParent heap)
    (sections, heap).

Definition formatSchemasInPlace (schemas : list (string * Schema)) (heap : Heap)
  : list string * Heap :=
  fold_left formatSchemaEntryInPlace schemas
    (["SCHEMAS:"; "> * = required" ++ nl], heap).

(** The entry point: only the schema listing uses the heap. *)
Definition openApiToLlmTextInPlace (openApi : Document) (heap : Heap)
  : string * Heap :=
  let sections :=
    JS.pushAll (formatHeader (d_info openApi) (headerServers openApi))
      (formatEndpoints (pathsOf openApi) openApi) in
  let '(sections, heap) :=
    match schemaTable openApi with
    | Some schemas =>
        let '(listing, heap) := formatSchemasInPlace schemas heap in
        (JS.pushAll sections listing, heap)
    | None => (sections, heap)
    end in
  let sections :=
    match securityTable openApi with
    | Some schemes => JS.pushAll sections (formatSecurity schemes)
    | None => sections
    end in
  (JS.join nl sections, heap).

(** A document whose only content is the schema [Foo] of the example. *)
Definition fooDocument : Document :=
  mkDocument None (mkInfo (Some "T") (Some "1") None) None None None None None
    None None None
    (Some (mkComponents (Some [("Foo", fooSchema)]) None None)).

(** * Properties *)

(** ** Strings and lists *)

Lemma app_empty_r (s : string) : s ++ "" = s.
Proof. induction s as [|c s IH]; simpl; [reflexivity | now rewrite IH]. Qed.

Lemma app_assoc_str (a b c : string) : (a ++ b) ++ c = a ++ (b ++ c).
Proof. induction a as [|x a IH]; simpl; [reflexivity | now rewrite IH]. Qed.

Lemma app_length_str (a b : string) :
  String.length (a ++ b) = String.length a + String.length b.
Proof. induction a as [|x a IH]; simpl; [reflexivity | now rewrite IH]. Qed.

Lemma app_cancel_l (a b c : string) : a ++ b = a ++ c -> b = c.
Proof.
  induction a as [|x a IH]; simpl; intros H; [exact H|].
  injection H as H. now apply IH.
Qed.

Lemma app_cancel_r (a b c : string) : a ++ c = b ++ c -> a = b.
Proof.
  revert b. induction a as [|x a IH]; intros [|y b] H; simpl in *.
  - reflexivity.
  - apply (f_equal String.length) in H. simpl in H.
    rewrite app_length_str in H. lia.
  - apply (f_equal String.length) in H. simpl in H.
    rewrite app_length_str in H. lia.
  - injection H as -> H. f_equal. now apply IH.
Qed.

(** Bring both sides of an equation between strings into right-nested
    form. *)
Ltac str_norm := simpl; repeat (rewrite app_assoc_str; simpl).

Lemma Substring_refl (s : string) : Substring s s.
Proof. exists "", "". simpl. now rewrite app_empty_r. Qed.

Lemma Substring_app_l (s a b : string) : Substring s a -> Substring s (a ++ b).
Proof.
  intros (x & y & ->). exists x, (y ++ b).
  now rewrite !app_assoc_str.
Qed.

Lemma Substring_app_r (s a b : string) : Substring s b -> Substring s (a ++ b).
Proof.
  intros (x & y & ->). exists (a ++ x), y.
  now rewrite !app_assoc_str.
Qed.

(** A section of the joined text occurs in the text. *)
Lemma join_Substring (sep x : string) (l : list string) :
  In x l -> Substring x (JS.join sep l).
Proof.
  induction l as [|y l IH]; intros Hin; [contradiction|].
  destruct l as [|z l].
  - destruct Hin as [->|[]]. apply Substring_refl.
  - change (JS.join sep (y :: z :: l)) with (y ++ sep ++ JS.join sep (z :: l)).
    destruct Hin as [->|Hin].
    + apply Substring_app_l, Substring_refl.
    + now apply Substring_app_r, Substring_app_r, IH.
Qed.

Lemma join_cons (sep x : string) (l : list string) :
  l <> [] -> JS.join sep (x :: l) = x ++ sep ++ JS.join sep l.
Proof. destruct l; [congruence | reflexivity]. Qed.

(** Joining two non-empty lists joins their texts with one separator. *)
Lemma join_app (sep : string) (a b : list string) :
  a <> [] -> b <> [] ->
  JS.join sep (a ++ b) = JS.join sep a ++ sep ++ JS.join sep b.
Proof.
  intros Ha Hb. induction a as [|x a IH]; [congruence|].
  destruct a as [|y a].
  - simpl app. now rewrite join_cons.
  - rewrite <- app_comm_cons, join_cons by discriminate.
    rewrite IH by discriminate.
    rewrite (join_cons sep x (y :: a)) by discriminate.
    now rewrite !app_assoc_str.
Qed.

(** Bring a list built with [++] and [::] into right-nested form. *)
Ltac list_norm :=
  repeat (rewrite <- app_assoc || rewrite <- app_comm_cons); simpl.

Lemma pushAll_nil {A} (l : list A) : JS.pushAll l [] = l.
Proof. apply app_nil_r. Qed.

(** A loop that only pushes is a [flat_map]. *)
Lemma fold_left_pushAll {A B} (f : B -> list A) (l : list B) (init : list A) :
  fold_left (fun acc x => JS.pushAll acc (f x)) l init
  = (init ++ flat_map f l)%list.
Proof.
  revert init. induction l as [|x l IH]; intros init; simpl.
  - now rewrite app_nil_r.
  - rewrite IH. unfold JS.pushAll. now rewrite <- app_assoc.
Qed.

Lemma fold_left_invariant {A B} (P : A -> Prop) (f : A -> B -> A)
  (l : list B) (init : A) :
  P init -> (forall a b, P a -> P (f a b)) -> P (fold_left f l init).
Proof.
  intros H0 Hstep. revert init H0.
  induction l as [|x l IH]; intros init H0; simpl; auto.
Qed.

(** ** The text after the last slash *)

Lemma split_not_nil (sep : ascii) (s : string) : JS.split sep s <> [].
Proof.
  destruct s as [|c s]; simpl; [discriminate|].
  destruct (Ascii.eqb c sep); [discriminate|].
  destruct (JS.split sep s); discriminate.
Qed.

Lemma split_no_sep (s : string) : hasSlash s = false -> JS.split "/" s = [s].
Proof.
  induction s as [|c s IH]; simpl; intros H; [reflexivity|].
  apply orb_false_iff in H as [Hc Hs].
  rewrite Hc, (IH Hs). reflexivity.
Qed.

Lemma pop_cons (x : string) (l : list string) :
  l <> [] -> JS.pop (x :: l) = JS.pop l.
Proof. destruct l; [congruence | reflexivity]. Qed.

Lemma split_singleton (s seg : string) :
  JS.split "/" s = [seg] -> hasSlash s = false.
Proof.
  revert seg. induction s as [|c s IH]; intros seg H; [reflexivity|].
  simpl in *. destruct (Ascii.eqb c "/").
  - injection H as _ H. now apply split_not_nil in H.
  - destruct (JS.split "/" s) as [|seg2 segs2] eqn:E.
    + now apply split_not_nil in E.
    + injection H as _ ->. now apply (IH seg2).
Qed.

Lemma pop_split (s : string) : JS.pop (JS.split "/" s) = Some (afterLastSlash s).
Proof.
  induction s as [|c s IH]; [reflexivity|].
  simpl. destruct (hasSlash s) eqn:Hs.
  - assert (Hlong : exists a b rest, JS.split "/" s = a :: b :: rest).
    { destruct (JS.split "/" s) as [|a [|b rest]] eqn:E.
      - now apply split_not_nil in E.
      - apply split_singleton in E. congruence.
      - now exists a, b, rest. }
    destruct Hlong as (a & b & rest & E).
    rewrite E in *. destruct (Ascii.eqb c "/"); exact IH.
  - rewrite (split_no_sep s Hs). now destruct (Ascii.eqb c "/").
Qed.

(** [refName] computes the text after the last slash. *)
Lemma refName_afterLastSlash (ref : string) : refName ref = afterLastSlash ref.
Proof. unfold refName. now rewrite pop_split. Qed.

Lemma hasSlash_app (a b : string) : hasSlash (a ++ b) = hasSlash a || hasSlash b.
Proof.
  induction a as [|c a IH]; simpl; [reflexivity|].
  now rewrite IH, orb_assoc.
Qed.

(** The defining property: behind the last slash stands the slash-free
    tail. *)
Lemma afterLastSlash_tail (before seg : string) :
  hasSlash seg = false -> afterLastSlash (before ++ "/" ++ seg) = seg.
Proof.
  intros Hseg. induction before as [|c before IH]; simpl.
  - now rewrite Hseg.
  - rewrite hasSlash_app. simpl. now rewrite orb_true_r.
Qed.

Lemma afterLastSlash_none (s : string) : hasSlash s = false -> afterLastSlash s = s.
Proof.
  destruct s as [|c s]; simpl; [reflexivity|].
  intros H. apply orb_false_iff in H as [Hc Hs]. now rewrite Hs, Hc.
Qed.

(** ** The rendering rules on small inputs *)

Example array_of_reference :
  resolveSchemaType
    (Some (mkSchema None None None None (Some (TypeName "array"))
             (Some (referenceTo "#/components/schemas/Pet")) None None None None))
    (inContext response)
  = "Array of Pet".
Proof. reflexivity. Qed.

Example array_in_parameter_context :
  resolveSchemaType
    (Some (mkSchema None None None None (Some (TypeName "array"))
             (Some (referenceTo "#/components/schemas/Pet")) None None None None))
    (inContext parameter)
  = "array".
Proof. reflexivity. Qed.

Example empty_schema_unknown :
  resolveSchemaType (Some emptySchema) (inContext parameter) = "unknown" /\
  resolveSchemaType (Some emptySchema) (inContext requestBody) = "Unknown" /\
  resolveSchemaType None (inContext response) = "Unknown".
Proof. repeat split. Qed.

Example composition_in_request_body :
  resolveSchemaType
    (Some (allOfSchema
             [referenceTo "#/components/schemas/Bar";
              objectOf [("a", emptySchema); ("b", emptySchema);
                        ("c", emptySchema); ("d", emptySchema)];
              ofType "string"; emptySchema]))
    (inContext requestBody)
  = "allOf: [Bar, {a, b, c, ...}, string, inline]".
Proof. reflexivity. Qed.

Example composition_elsewhere :
  resolveSchemaType (Some fooSchema) (inContext response) = "Unknown".
Proof. reflexivity. Qed.

Example enum_before_format :
  resolveSchemaType
    (Some (mkSchema None None None None (Some (TypeName "integer")) None None None
             (Some [EnumNumber "1"; EnumNumber "2"; EnumNull]) (Some "int32")))
    (inContext response)
  = "integer [1, 2, ]" /\
  resolveSchemaType
    (Some (mkSchema None None None None (Some (TypeName "integer")) None None None
             None (Some "int32")))
    (inContext response)
  = "integer (format: int32)" /\
  resolveSchemaType
    (Some (mkSchema None None None None (Some (TypeName "integer")) None None None
             None (Some "int32")))
    (inContext requestBody)
  = "integer".
Proof. repeat split. Qed.

Example swagger2_parameter :
  parameterLine
    (mkParameter None (Some "status") (Some "query") (Some true) None
       (Some "string") (Some [EnumStr "sold"; EnumStr "pending"])
       (Some "Status values"))
  = "    - status (query, string [sold, pending] (required)): Status values".
Proof. reflexivity. Qed.

Example methods_in_key_order :
  formatEndpoints
    [("/pets", Some [("summary", None);
                     ("post", Some (mkOperation None None None None));
                     ("get", Some (mkOperation None None None None));
                     ("trace", None)])]
    endToEndDocument
  = [endpointsHeading; "POST /pets"; ""; "GET /pets"; ""].
Proof. reflexivity. Qed.

Example security_lines :
  formatSecurity
    [("key", mkSecurityScheme (Some "apiKey") (Some "header") (Some "api_key") None);
     ("jwt", mkSecurityScheme (Some "http") None None (Some "bearer"));
     ("digest", mkSecurityScheme (Some "http") None None (Some "digest"));
     ("other", mkSecurityScheme (Some "mutualTLS") None None None)]
  = ["SECURITY:"; "- API Key authentication (header: api_key)";
     "- HTTP bearer authentication"; "- HTTP digest authentication"; ""].
Proof. reflexivity. Qed.

(** ** References (claim C3) *)

(** C3, as amended.  For a schema node that carries [$ref], in every render
    context and whatever else the node holds, [resolveSchemaType] returns
    the substring of the reference string after its last ['/'] when that
    substring is not empty.  When it is empty (the reference string ends in
    ['/'], or is empty) the result is the unknown token of the context:
    ["unknown"] for a parameter, ["Unknown"] otherwise.  The referenced
    target is no argument of the function. *)
Theorem resolveSchemaType_reference
  (schema : Schema) (options : ResolveSchemaTypeOptions) (ref : string) :
  s_ref schema = Some ref ->
  (afterLastSlash ref <> "" ->
   resolveSchemaType (Some schema) options = afterLastSlash ref) /\
  (afterLastSlash ref = "" ->
   resolveSchemaType (Some schema) options = unknownValue (context options)) /\
  (forall before seg, hasSlash seg = false -> ref = before ++ "/" ++ seg ->
   afterLastSlash ref = seg).
Proof.
  intros Href.
  assert (E : resolveSchemaType (Some schema) options
              = JS.or_else (Some (afterLastSlash ref)) (unknownValue (context options))).
  { destruct schema; simpl in Href; subst. simpl. now rewrite pop_split. }
  rewrite E. simpl. repeat split.
  - intros Hne. apply String.eqb_neq in Hne. now rewrite Hne.
  - intros ->. reflexivity.
  - intros before seg Hseg ->. now apply afterLastSlash_tail.
Qed.

Lemma resolveSchemaType_reference_witness :
  resolveSchemaType (Some (referenceTo "#/components/schemas/Pet")) (inContext parameter)
  = "Pet".
Proof.
  destruct (resolveSchemaType_reference
              (referenceTo "#/components/schemas/Pet") (inContext parameter)
              "#/components/schemas/Pet" eq_refl) as (Hname & _ & _).
  apply Hname. vm_compute. discriminate.
Defined.

(** C3 as it was stated fails on a reference string that ends in ['/']:
    the substring after the last slash is empty, the result is not. *)
Lemma resolveSchemaType_reference_counterexample :
  afterLastSlash "#/components/schemas/" = "" /\
  resolveSchemaType (Some (referenceTo "#/components/schemas/")) (inContext response)
  = "Unknown" /\
  resolveSchemaType (Some (referenceTo "#/components/schemas/")) (inContext response)
  <> afterLastSlash "#/components/schemas/".
Proof.
  split; [|split]; vm_compute; [reflexivity | reflexivity | discriminate].
Qed.

(** ** Objects (claim C4) *)

Lemma resolveSchemaType_object (schema : Schema) (options : ResolveSchemaTypeOptions)
  (props : list (string * Schema)) :
  s_ref schema = None -> s_allOf schema = None -> s_oneOf schema = None ->
  s_anyOf schema = None -> s_type schema = Some (TypeName "object") ->
  s_properties schema = Some props -> props <> [] ->
  includeProperties options = None -> limitProperties options = None ->
  resolveSchemaType (Some schema) options =
  "Object (" ++
  match context options with
  | requestBody =>
      if (3 <? length props)%nat
      then JS.join ", " (firstn 3 (JS.keys props)) ++ "..."
      else JS.join ", " (JS.keys props)
  | _ => JS.join ", " (JS.keys props)
  end ++ ")".
Proof.
  intros Href Hall Hone Hany Hty Hprops Hne Hinc Hlim.
  destruct schema; simpl in *; subst.
  destruct options as [c inc incp lim]; simpl in *; subst.
  unfold resolveSchemaType, resolveSchemaNode, typeIs, optIncludeProperties,
    optLimitProperties, JS.keys, JS.slice0; simpl.
  rewrite length_map.
  destruct props as [|p props]; [congruence|]. simpl.
  destruct c; reflexivity.
Qed.

(** Enumeration permutes the declared properties. *)
Lemma insertIndexed_Permutation {A} (i : N) (x : A) (l : list (N * A)) :
  Permutation (map snd (JS.insertIndexed i x l)) (x :: map snd l).
Proof.
  induction l as [|[j y] l IH]; simpl; [reflexivity|].
  destruct (i <? j)%N; simpl; [reflexivity|].
  rewrite IH. apply perm_swap.
Qed.

Lemma ownPropertyOrder_Permutation {A} (declared : list (string * A)) :
  Permutation (JS.ownPropertyOrder declared) declared.
Proof.
  unfold JS.ownPropertyOrder.
  induction declared as [|entry rest IH]; simpl; [reflexivity|].
  destruct (JS.arrayIndex (fst entry)) as [i|]; simpl.
  - rewrite (Permutation_app_tail _ (insertIndexed_Permutation i entry _)).
    simpl. now rewrite IH.
  - rewrite <- Permutation_middle. now rewrite IH.
Qed.

(** Without an array index among the keys, enumeration is declaration
    order. *)
Lemma ownPropertyOrder_no_index {A} (declared : list (string * A)) :
  Forall (fun name => JS.arrayIndex name = None) (JS.keys declared) ->
  JS.ownPropertyOrder declared = declared.
Proof.
  unfold JS.ownPropertyOrder, JS.keys. intros H.
  assert (E : JS.indexedProperties declared = [] /\
              filter (fun entry : string * A =>
                        match JS.arrayIndex (fst entry) with
                        | Some _ => false
                        | None => true
                        end) declared = declared).
  { induction declared as [|entry rest IH]; simpl; [now split|].
    inversion H as [|? ? Hentry Hrest]; subst.
    rewrite Hentry. destruct (IH Hrest) as [-> ->]. now split. }
  destruct E as [-> ->]. reflexivity.
Qed.

(** C4, as amended.  An object schema with five properties renders in
    request-body context as ["Object (...)"] listing three names followed
    by the ["..."] marker, and in response context (no limit) with five
    names.  The names are those of the declared properties in the order in
    which the decoded object enumerates its keys, the converter adding no
    sorting of its own: array-index names come first in ascending numeric
    order, the other names follow in declaration order.  When no name is
    an array index, the names are the declared ones in declaration
    order. *)
Theorem resolveSchemaType_object_five_properties
  (schema : Schema) (declared : list (string * Schema)) :
  s_ref schema = None -> s_allOf schema = None -> s_oneOf schema = None ->
  s_anyOf schema = None -> s_type schema = Some (TypeName "object") ->
  s_properties schema = Some (JS.ownPropertyOrder declared) ->
  length declared = 5%nat ->
  exists n1 n2 n3 n4 n5,
    JS.keys (JS.ownPropertyOrder declared) = [n1; n2; n3; n4; n5] /\
    Permutation [n1; n2; n3; n4; n5] (JS.keys declared) /\
    resolveSchemaType (Some schema) (inContext requestBody)
    = "Object (" ++ n1 ++ ", " ++ n2 ++ ", " ++ n3 ++ "...)" /\
    resolveSchemaType (Some schema) (inContext response)
    = "Object (" ++ n1 ++ ", " ++ n2 ++ ", " ++ n3 ++ ", " ++ n4 ++ ", " ++ n5 ++ ")" /\
    (Forall (fun name => JS.arrayIndex name = None) (JS.keys declared) ->
     JS.keys declared = [n1; n2; n3; n4; n5]).
Proof.
  intros Href Hall Hone Hany Hty Hprops Hlen.
  pose proof (ownPropertyOrder_Permutation declared) as Hperm.
  pose proof (Permutation_length Hperm) as Hlen'. rewrite Hlen in Hlen'.
  destruct (JS.ownPropertyOrder declared)
    as [|[n1 s1] [|[n2 s2] [|[n3 s3] [|[n4 s4] [|[n5 s5] [|? ?]]]]]] eqn:E;
    try discriminate Hlen'.
  exists n1, n2, n3, n4, n5.
  assert (Hne : [(n1, s1); (n2, s2); (n3, s3); (n4, s4); (n5, s5)] <> [])
    by discriminate.
  split; [reflexivity|].
  split; [exact (Permutation_map fst Hperm)|].
  split; [|split].
  - rewrite (resolveSchemaType_object schema (inContext requestBody) _
               Href Hall Hone Hany Hty Hprops Hne eq_refl eq_refl).
    str_norm. reflexivity.
  - rewrite (resolveSchemaType_object schema (inContext response) _
               Href Hall Hone Hany Hty Hprops Hne eq_refl eq_refl).
    str_norm. reflexivity.
  - intros Hnone. rewrite <- (ownPropertyOrder_no_index declared Hnone) at 1.
    now rewrite E.
Qed.

Lemma resolveSchemaType_object_five_properties_witness :
  let schema :=
    objectOf [("id", ofType "integer"); ("name", ofType "string");
              ("tag", ofType "string"); ("owner", referenceTo "#/components/schemas/User");
              ("age", ofType "integer")] in
  resolveSchemaType (Some schema) (inContext requestBody) = "Object (id, name, tag...)" /\
  resolveSchemaType (Some schema) (inContext response)
  = "Object (id, name, tag, owner, age)".
Proof.
  intros schema.
  destruct (resolveSchemaType_object_five_properties schema
              [("id", ofType "integer"); ("name", ofType "string");
               ("tag", ofType "string");
               ("owner", referenceTo "#/components/schemas/User");
               ("age", ofType "integer")]
              eq_refl eq_refl eq_refl eq_refl eq_refl eq_refl eq_refl)
    as (n1 & n2 & n3 & n4 & n5 & _ & _ & Hrequest & Hresponse & Hdeclared).
  assert (Hnames : ["id"; "name"; "tag"; "owner"; "age"] = [n1; n2; n3; n4; n5]).
  { apply Hdeclared. repeat constructor. }
  injection Hnames as <- <- <- <- <-.
  split; [exact Hrequest | exact Hresponse].
Defined.

(** C4 as it was stated fails: the names are not always the first three
    declared.  For properties declared in the order [b], [2], [a], [10],
    [1] the decoded object enumerates [1], [2], [10], [b], [a], and the
    request-body rendering lists [1], [2], [10]. *)
Lemma resolveSchemaType_object_five_properties_counterexample :
  let declared :=
    [("b", ofType "string"); ("2", ofType "string"); ("a", ofType "string");
     ("10", ofType "string"); ("1", ofType "string")] in
  let schema := objectOf (JS.ownPropertyOrder declared) in
  JS.keys declared = ["b"; "2"; "a"; "10"; "1"] /\
  resolveSchemaType (Some schema) (inContext requestBody) = "Object (1, 2, 10...)" /\
  resolveSchemaType (Some schema) (inContext requestBody)
  <> "Object (" ++ JS.join ", " (firstn 3 (JS.keys declared)) ++ "...)".
Proof.
  intros declared schema. split; [reflexivity|]. split; [reflexivity|].
  vm_compute. discriminate.
Qed.

(** ** The shape of the section list *)

Lemma truthy_app_nonempty (a b : string) (c : ascii) :
  JS.truthy (Some (a ++ String c b)) = true.
Proof. destruct a; reflexivity. Qed.

Lemma documentSections_shape (openApi : Document) :
  documentSections openApi
  = (formatHeader (d_info openApi) (headerServers openApi) ++
     formatEndpoints (pathsOf openApi) openApi ++
     trailingSections openApi)%list.
Proof.
  unfold documentSections, headerServers, trailingSections, schemaTable,
    securityTable, JS.pushAll.
  destruct (isSwagger2 openApi).
  - assert (Hs : (if JS.truthy (swaggerBaseUrl openApi)
                  then Some [mkServer (swaggerBaseUrl openApi) None] else None)
                 = match swaggerBaseUrl openApi with
                   | Some baseUrl => Some [mkServer (Some baseUrl) None]
                   | None => None
                   end).
    { unfold swaggerBaseUrl.
      destruct (JS.truthy (d_host openApi) && JS.truthy (d_basePath openApi));
        [|reflexivity].
      cbn [append]. now rewrite truthy_app_nonempty. }
    rewrite Hs.
    destruct (d_definitions openApi), (d_securityDefinitions openApi);
      rewrite <- ?app_assoc, ?app_nil_r; reflexivity.
  - destruct (d_components openApi) as [[[schemas|] [schemes|] params]|];
      simpl; rewrite <- ?app_assoc, ?app_nil_r; reflexivity.
Qed.

(** ** The end-to-end example (claim C2) *)

(** C2, as amended.  For the document of the end-to-end example the
    output is exactly the expected text with one line feed at its end:
    the operation closes with an empty section, no schema or security
    section follows it, and the join puts a single line feed before that
    empty section. *)
Theorem openApiToLlmText_end_to_end :
  openApiToLlmText endToEndDocument
  = "API: T v1" ++ nl ++ nl ++ "Base URL: /api" ++ nl ++ nl ++ "ENDPOINTS:" ++
    nl ++ nl ++ "GET /x" ++ nl ++ "  Summary: S" ++ nl ++ "  Responses:" ++ nl ++
    "    200: OK" ++ nl.
Proof. vm_compute. reflexivity. Qed.

(** C2 as it was stated fails: the output is one character shorter than
    the prefix it is said to begin with. *)
Lemma openApiToLlmText_end_to_end_counterexample :
  ~ (exists rest, openApiToLlmText endToEndDocument = endToEndClaimedPrefix ++ rest).
Proof.
  intros [rest H].
  apply (f_equal String.length) in H.
  rewrite app_length_str in H.
  vm_compute in H. lia.
Qed.

(** ** The Swagger 2.0 base URL (claim C7) *)

(** C7.  In a document whose [swagger] field is exactly ["2.0"] and that
    has a host and a base path (present as the code tests it: a non-empty
    string), the header holds the section ["\nBase URL: <scheme>://<host><basePath>"],
    so the output contains ["Base URL: <scheme>://<host><basePath>"]; the
    scheme is the first entry of [schemes], and ["https"] when [schemes] is
    absent or empty. *)
Theorem swagger2_base_url
  (openApi : Document) (host basePath scheme : string) :
  d_swagger openApi = Some "2.0" ->
  d_host openApi = Some host -> host <> "" ->
  d_basePath openApi = Some basePath -> basePath <> "" ->
  ((exists rest, d_schemes openApi = Some (scheme :: rest) /\ scheme <> "") \/
   ((d_schemes openApi = None \/ d_schemes openApi = Some []) /\ scheme = "https")) ->
  let baseUrl := scheme ++ "://" ++ host ++ basePath in
  In (nl ++ "Base URL: " ++ baseUrl)
    (formatHeader (d_info openApi) (headerServers openApi)) /\
  Substring ("Base URL: " ++ baseUrl) (openApiToLlmText openApi).
Proof.
  intros Hsw Hhost Hh Hbase Hb Hscheme baseUrl.
  assert (Hurl : swaggerBaseUrl openApi = Some baseUrl).
  { unfold swaggerBaseUrl. rewrite Hhost, Hbase. simpl.
    apply String.eqb_neq in Hh, Hb. rewrite Hh, Hb. simpl.
    destruct Hscheme as [(rest & -> & Hne) | [[-> | ->] ->]]; try reflexivity.
    apply String.eqb_neq in Hne. now rewrite Hne. }
  assert (Hin : In (nl ++ "Base URL: " ++ baseUrl)
                  (formatHeader (d_info openApi) (headerServers openApi))).
  { unfold headerServers, isSwagger2. rewrite Hsw, Hurl. simpl.
    unfold formatHeader, JS.push.
    destruct (JS.truthy (i_description (d_info openApi)));
      apply in_or_app; right; left; reflexivity. }
  split; [exact Hin|].
  unfold openApiToLlmText. rewrite documentSections_shape.
  destruct (join_Substring nl _ _
              (in_or_app _ (formatEndpoints (pathsOf openApi) openApi ++
                            trailingSections openApi)%list _ (or_introl Hin)))
    as (before & after & E).
  exists (before ++ nl), after. rewrite E.
  now rewrite !app_assoc_str.
Qed.

Lemma swagger2_base_url_witness :
  Substring "Base URL: http://api.x.com/v1"
    (openApiToLlmText
       (swaggerDocument (Some "api.x.com") (Some "/v1") (Some ["http"]))).
Proof.
  refine (proj2 (swagger2_base_url
            (swaggerDocument (Some "api.x.com") (Some "/v1") (Some ["http"]))
            "api.x.com" "/v1" "http" eq_refl eq_refl _ eq_refl _ _)).
  - discriminate.
  - discriminate.
  - left. exists []. split; [reflexivity | discriminate].
Defined.

(** ** Parameters (claims C6 and C9) *)

Section ParametersOfDocument.

Variable openApi : Document.

Lemma formatParameters_lines (parameters : list ParameterObject) :
  formatParameters parameters openApi
  = match paramLinesOf openApi parameters with
    | [] => []
    | line :: more => "  Parameters:" :: line :: more
    end.
Proof.
  unfold formatParameters.
  assert (E : forall init,
             fold_left
               (fun paramLines p =>
                  match parameterStep openApi p with
                  | Some line => JS.push paramLines line
                  | None => paramLines
                  end) parameters init
             = (init ++ paramLinesOf openApi parameters)%list).
  { induction parameters as [|p ps IH]; intros init; simpl.
    - now rewrite app_nil_r.
    - rewrite IH. destruct (parameterStep openApi p); [|reflexivity].
      unfold JS.push. now rewrite <- app_assoc. }
  rewrite E. simpl. now destruct (paramLinesOf openApi parameters).
Qed.

Lemma paramLinesOf_app (l1 l2 : list ParameterObject) :
  paramLinesOf openApi (l1 ++ l2)
  = (paramLinesOf openApi l1 ++ paramLinesOf openApi l2)%list.
Proof. unfold paramLinesOf. apply flat_map_app. Qed.

(** Resolution reads the collection of the document's version under the
    trailing name. *)
Lemma resolveParameterRef_collection (ref : string) :
  resolveParameterRef ref openApi
  = match parameterCollection openApi with
    | Some collection =>
        JS.get inheritedParameter (afterLastSlash ref) collection
    | None => None
    end.
Proof.
  unfold resolveParameterRef, parameterCollection.
  rewrite refName_afterLastSlash.
  destruct (isSwagger2 openApi); simpl; [reflexivity|].
  now destruct (d_components openApi).
Qed.

(** An entry yields no line exactly when it is an unresolvable reference. *)
Lemma parameterStep_None (p : ParameterObject) :
  parameterStep openApi p = None <-> unresolvableParameter openApi p.
Proof.
  unfold parameterStep, unresolvableParameter, unresolvable.
  destruct (p_ref p) as [ref|].
  - rewrite resolveParameterRef_collection.
    destruct (parameterCollection openApi) as [collection|].
    + unfold JS.get.
      destruct (JS.lookup (afterLastSlash ref) collection) eqn:E; split.
      * discriminate.
      * intros (ref' & [= <-] & H & _). congruence.
      * destruct (inheritedParameter (afterLastSlash ref)) eqn:I;
          [discriminate | intros _; exists ref; repeat split; assumption].
      * intros (ref' & [= <-] & _ & H). now rewrite H.
    + split; [intros _; now exists ref | reflexivity].
  - split; [discriminate | intros (ref & [=] & _)].
Qed.

Lemma paramLinesOf_unresolvable (parameters : list ParameterObject) :
  Forall (unresolvableParameter openApi) parameters ->
  paramLinesOf openApi parameters = [].
Proof.
  induction 1 as [|p ps Hp _ IH]; [reflexivity|].
  unfold paramLinesOf in *. simpl.
  apply parameterStep_None in Hp. now rewrite Hp, IH.
Qed.

End ParametersOfDocument.

(** X22.  A parameter entry whose [$ref] yields nothing when the collection
    of the document's version is read under its trailing name (the
    collection is absent, or the name is neither one of its own keys nor a
    member every object inherits) is dropped: the parameter section is the
    one of the list without that entry.  When every entry of an operation
    is such a reference, no parameter line exists, [formatParameters]
    returns nothing, not even the ["  Parameters:"] heading, and the
    operation renders as the same operation without parameters. *)
Theorem unresolvable_parameter_dropped
  (openApi : Document) (before after : list ParameterObject) (p : ParameterObject) :
  unresolvableParameter openApi p ->
  formatParameters (before ++ p :: after) openApi
  = formatParameters (before ++ after) openApi /\
  (Forall (unresolvableParameter openApi) (before ++ after) ->
   formatParameters (before ++ p :: after) openApi = [] /\
   forall method path operation,
     op_parameters operation = Some (before ++ p :: after)%list ->
     formatOperation method path operation openApi
     = formatOperation method path (withoutParameters operation) openApi).
Proof.
  intros Hp.
  assert (Hdrop : paramLinesOf openApi (before ++ p :: after)
                  = paramLinesOf openApi (before ++ after)).
  { rewrite !paramLinesOf_app. f_equal.
    change (p :: after) with ([p] ++ after)%list. rewrite paramLinesOf_app.
    rewrite (paramLinesOf_unresolvable openApi [p]); [reflexivity|].
    now constructor. }
  split; [now rewrite !formatParameters_lines, Hdrop|].
  intros Hall.
  assert (Hnone : formatParameters (before ++ p :: after) openApi = []).
  { rewrite formatParameters_lines, Hdrop.
    now rewrite (paramLinesOf_unresolvable _ _ Hall). }
  split; [exact Hnone|].
  intros method path operation Hparams.
  unfold formatOperation, withoutParameters. simpl. rewrite Hparams.
  destruct (before ++ p :: after)%list as [|q qs] eqn:E; [reflexivity|].
  rewrite Hnone, pushAll_nil. reflexivity.
Qed.

Lemma unresolvable_parameter_dropped_witness :
  let openApi := documentWithParameters [("limit", bareParameter false)] in
  let p := parameterRef "#/components/parameters/offset" in
  formatParameters [p] openApi = [] /\
  formatOperation "get" "/x" (mkOperation None (Some [p]) None None) openApi
  = ["GET /x"; ""].
Proof.
  intros openApi p.
  assert (Hp : unresolvableParameter openApi p).
  { exists "#/components/parameters/offset". repeat split; reflexivity. }
  destruct (unresolvable_parameter_dropped openApi [] [] p Hp) as [_ H].
  destruct (H (Forall_nil _)) as [Hnone Hop].
  split; [exact Hnone|].
  rewrite (Hop "get" "/x" (mkOperation None (Some [p]) None None) eq_refl).
  reflexivity.
Defined.

(** C6.  A reference that cannot be resolved is not always dropped.  The
    document below has the one component parameter [limit], so the
    reference [#/components/parameters/constructor] names no entry of the
    collection.  The read [parameters[paramName]] nevertheless yields the
    function every object inherits under [constructor], and the converter
    renders it as a parameter: the operation gets a ["  Parameters:"]
    heading and a line for a parameter called [Object]. *)
Theorem dangling_reference_rendered :
  let openApi := documentWithParameters [("limit", bareParameter false)] in
  let ref := "#/components/parameters/constructor" in
  dangling openApi ref /\
  formatParameters [parameterRef ref] openApi
  = ["  Parameters:";
     "    - Object (undefined, unknown (optional)): No description"] /\
  formatOperation "get" "/x"
    (mkOperation None (Some [parameterRef ref]) None None) openApi
  = ["GET /x"; "  Parameters:";
     "    - Object (undefined, unknown (optional)): No description"; ""].
Proof.
  intros openApi ref. split; [|split; reflexivity].
  intros [H|[]]. discriminate H.
Qed.

(** C9.  A parameter that is rendered (directly, or through the reference
    that resolves to it) keeps its line: the line is in the parameter
    section, laid out as usual, with the literal ["undefined"] in place of a
    missing [name] and of a missing [in], and with the type ["unknown"]
    when the node has neither [schema] nor [type]. *)
Theorem parameter_missing_fields
  (openApi : Document) (before after : list ParameterObject)
  (p resolvedParam : ParameterObject) :
  resolvesTo openApi p resolvedParam ->
  exists name location type required description,
    In (parameterLayout name location type required description)
      (formatParameters (before ++ p :: after) openApi) /\
    (p_name resolvedParam = None -> name = "undefined") /\
    (forall n, p_name resolvedParam = Some n -> n <> "" -> name = n) /\
    (p_in resolvedParam = None -> location = "undefined") /\
    (forall l, p_in resolvedParam = Some l -> l <> "" -> location = l) /\
    (p_schema resolvedParam = None -> p_type resolvedParam = None ->
     type = "unknown") /\
    required = (if match p_required resolvedParam with
                   | Some true => true
                   | _ => false
                   end then "required" else "optional") /\
    (p_description resolvedParam = None -> description = "No description").
Proof.
  intros Hres.
  assert (Hstep : parameterStep openApi p = Some (parameterLine resolvedParam)).
  { unfold parameterStep.
    destruct Hres as [[Hnone ->] | (ref & Href & Hres)].
    - now rewrite Hnone.
    - now rewrite Href, Hres. }
  exists (JS.or_else (p_name resolvedParam) "undefined"),
    (JS.or_else (p_in resolvedParam) "undefined"),
    (parameterType resolvedParam),
    (match p_required resolvedParam with
     | Some true => "required"
     | _ => "optional"
     end),
    (JS.or_else (p_description resolvedParam) "No description").
  split; [|repeat split].
  - rewrite formatParameters_lines, paramLinesOf_app.
    change (paramLinesOf openApi (p :: after))
      with ((match parameterStep openApi p with
             | Some line => [line]
             | None => []
             end) ++ paramLinesOf openApi after)%list.
    rewrite Hstep.
    fold (parameterLine resolvedParam).
    destruct (paramLinesOf openApi before) as [|b bs]; simpl.
    + right. left. reflexivity.
    + right. right. apply in_or_app. right. left. reflexivity.
  - now intros ->.
  - intros n -> Hn. simpl. apply String.eqb_neq in Hn. now rewrite Hn.
  - now intros ->.
  - intros l -> Hl. simpl. apply String.eqb_neq in Hl. now rewrite Hl.
  - intros Hs Ht. unfold parameterType. now rewrite Hs, Ht.
  - now destruct (p_required resolvedParam) as [[|]|].
  - now intros ->.
Qed.

Lemma parameter_missing_fields_witness :
  In "    - undefined (undefined, unknown (required)): No description"
    (formatParameters [parameterRef "#/components/parameters/limit"]
       (documentWithParameters [("limit", bareParameter true)])).
Proof.
  destruct (parameter_missing_fields
              (documentWithParameters [("limit", bareParameter true)]) [] []
              (parameterRef "#/components/parameters/limit") (bareParameter true)
              (or_intror (ex_intro _ "#/components/parameters/limit"
                            (conj eq_refl eq_refl))))
    as (name & location & type & required & description & Hin & Hname & _ &
        Hloc & _ & Hty & Hreq & Hdesc).
  rewrite (Hname eq_refl), (Hloc eq_refl), (Hty eq_refl eq_refl), Hreq,
    (Hdesc eq_refl) in Hin.
  exact Hin.
Defined.

(** ** The endpoints heading (claim C10) *)

Lemma hasSpace_app (a b : string) : hasSpace (a ++ b) = hasSpace a || hasSpace b.
Proof.
  induction a as [|c a IH]; simpl; [reflexivity|].
  now rewrite IH, orb_assoc.
Qed.

Lemma hasSpace_notHeading (s : string) : hasSpace s = true -> notHeading s.
Proof. intros H ->. vm_compute in H. discriminate. Qed.

(** Sections that hold a blank differ from the heading. *)
Ltac spaced :=
  apply hasSpace_notHeading; repeat rewrite hasSpace_app; simpl;
  rewrite ?orb_true_r; reflexivity.

Lemma Forall_push {A} (P : A -> Prop) (l : list A) (x : A) :
  Forall P l -> P x -> Forall P (JS.push l x).
Proof. intros Hl Hx. apply Forall_app. split; [exact Hl | now constructor]. Qed.

Lemma Forall_pushAll {A} (P : A -> Prop) (l xs : list A) :
  Forall P l -> Forall P xs -> Forall P (JS.pushAll l xs).
Proof. intros Hl Hxs. apply Forall_app. now split. Qed.

Lemma formatHeader_notHeading (info : Info) (servers : option (list Server)) :
  Forall notHeading (formatHeader info servers).
Proof.
  unfold formatHeader.
  set (first := ["API: " ++ JS.tmpl (i_title info) ++ " v" ++ JS.tmpl (i_version info)]).
  assert (H1 : Forall notHeading first) by (repeat constructor; spaced).
  set (second := if JS.truthy (i_description info) then _ else first).
  assert (H2 : Forall notHeading second).
  { subst second. destruct (JS.truthy (i_description info)); [|exact H1].
    apply Forall_push; [exact H1 | spaced]. }
  destruct servers as [[|primaryServer others]|]; try exact H2.
  assert (H3 : Forall notHeading
                 (JS.push second (nl ++ "Base URL: " ++ JS.tmpl (sv_url primaryServer)))).
  { apply Forall_push; [exact H2 | spaced]. }
  destruct others as [|server others]; [exact H3|].
  apply fold_left_invariant.
  - apply Forall_push; [exact H3 | spaced].
  - intros acc sv Hacc. apply Forall_push; [exact Hacc|].
    unfold additionalUrl. spaced.
Qed.

Lemma formatParameters_notHeading (parameters : list ParameterObject)
  (openApi : Document) :
  Forall notHeading (formatParameters parameters openApi).
Proof.
  unfold formatParameters.
  set (paramLines := fold_left _ parameters []).
  assert (H : Forall notHeading paramLines).
  { subst paramLines. apply fold_left_invariant; [constructor|].
    intros acc p Hacc. unfold parameterStep.
    destruct (p_ref p) as [ref|].
    - destruct (resolveParameterRef ref openApi); [|exact Hacc].
      apply Forall_push; [exact Hacc | unfold parameterLine; spaced].
    - apply Forall_push; [exact Hacc | unfold parameterLine; spaced]. }
  destruct paramLines; [constructor|].
  constructor; [spaced | exact H].
Qed.

Lemma contentLines_notHeading (indent : string) (c : SchemaTypeContext)
  (sections : list string) (content : list (string * MediaType)) :
  Forall notHeading sections ->
  Forall notHeading (contentLines indent c sections content).
Proof.
  intros H. unfold contentLines. apply fold_left_invariant; [exact H|].
  intros acc [contentType mediaType] Hacc.
  apply Forall_push; [apply Forall_push; [exact Hacc|]|]; spaced.
Qed.

Lemma formatRequestBody_notHeading (body : RequestBody) :
  Forall notHeading (formatRequestBody body).
Proof.
  unfold formatRequestBody.
  assert (H : Forall notHeading ["  Request Body:"]) by (repeat constructor; spaced).
  destruct (rb_content body); [|exact H].
  now apply contentLines_notHeading.
Qed.

Lemma formatResponses_notHeading (responses : list (string * Response)) :
  Forall notHeading (formatResponses responses).
Proof.
  unfold formatResponses. apply fold_left_invariant.
  - repeat constructor. spaced.
  - intros acc [statusCode resp] Hacc.
    assert (H : Forall notHeading
                  (JS.push acc ("    " ++ statusCode ++ ": " ++
                                JS.or_else (r_description resp) "No description"))).
    { apply Forall_push; [exact Hacc | spaced]. }
    destruct (r_content resp).
    + now apply contentLines_notHeading.
    + destruct (r_schema resp); [|exact H].
      apply Forall_push; [exact H | spaced].
Qed.

Lemma formatOperation_notHeading (method path : string) (operation : Operation)
  (openApi : Document) :
  Forall notHeading (formatOperation method path operation openApi).
Proof.
  unfold formatOperation.
  apply Forall_push; [|vm_compute; discriminate].
  set (s1 := [JS.toUpperCase method ++ " " ++ path]).
  assert (H1 : Forall notHeading s1) by (repeat constructor; spaced).
  set (s2 := if JS.truthy (op_summary operation) then _ else s1).
  assert (H2 : Forall notHeading s2).
  { subst s2. destruct (JS.truthy (op_summary operation)); [|exact H1].
    apply Forall_push; [exact H1 | spaced]. }
  set (s3 := match op_parameters operation with Some [] => s2 | _ => _ end).
  assert (H3 : Forall notHeading s3).
  { subst s3. destruct (op_parameters operation) as [[|q qs]|]; try exact H2.
    apply Forall_pushAll; [exact H2 | apply formatParameters_notHeading]. }
  set (s4 := match op_requestBody operation with Some _ => _ | None => s3 end).
  assert (H4 : Forall notHeading s4).
  { subst s4. destruct (op_requestBody operation); [|exact H3].
    apply Forall_pushAll; [exact H3 | apply formatRequestBody_notHeading]. }
  destruct (op_responses operation); [|exact H4].
  apply Forall_pushAll; [exact H4 | apply formatResponses_notHeading].
Qed.

(** [formatEndpoints] begins with the heading and never pushes it again. *)
Lemma formatEndpoints_heading (paths : list (string * option PathItem))
  (openApi : Document) :
  exists body, formatEndpoints paths openApi = endpointsHeading :: body /\
               Forall notHeading body.
Proof.
  unfold formatEndpoints.
  apply (fold_left_invariant
           (fun sections => exists body, sections = endpointsHeading :: body /\
                                         Forall notHeading body)).
  - exists []. split; [reflexivity | constructor].
  - intros sections [path [pathItem|]] Hs; [|exact Hs].
    apply (fold_left_invariant
             (fun sections => exists body, sections = endpointsHeading :: body /\
                                           Forall notHeading body)); [exact Hs|].
    intros acc method (body & -> & Hbody).
    destruct (JS.lookup method pathItem) as [[operation|]|];
      try (exists body; split; [reflexivity | exact Hbody]).
    exists (body ++ formatOperation method path operation openApi)%list.
    split; [reflexivity|].
    apply Forall_app. split; [exact Hbody | apply formatOperation_notHeading].
Qed.

Lemma formatSecurity_notHeading (securitySchemes : list (string * SecurityScheme)) :
  Forall notHeading (formatSecurity securitySchemes).
Proof.
  unfold formatSecurity. apply Forall_push; [|vm_compute; discriminate].
  apply fold_left_invariant.
  - repeat constructor. vm_compute. discriminate.
  - intros acc [name schemeObj] Hacc. simpl.
    destruct (securityLine schemeObj) as [line|] eqn:E; [|exact Hacc].
    apply Forall_push; [exact Hacc|].
    unfold securityLine in E.
    repeat match type of E with
           | (if ?b then _ else _) = _ => destruct b
           | match ?x with _ => _ end = _ => destruct x
           end;
      try discriminate; injection E as <-; spaced.
Qed.

Lemma formatSchema_lines_notHeading (schema : Schema) (indent : string)
  (parentSchemaName : option string) (registry : option Registry) :
  Forall notHeading (lines (fst (formatSchema schema indent parentSchemaName registry))).
Proof.
  unfold formatSchema, formatComposition.
  destruct (s_allOf schema) as [branches|].
  { destruct (mapBranches parentSchemaName branches 1 registry). constructor. }
  destruct (s_oneOf schema) as [branches|].
  { destruct (mapBranches parentSchemaName branches 1 registry). constructor. }
  destruct (s_anyOf schema) as [branches|].
  { destruct (mapBranches parentSchemaName branches 1 registry). constructor. }
  destruct (typeIs schema "array").
  { simpl. unfold itemsLines.
    destruct (s_items schema) as [items|]; [|constructor].
    destruct (s_ref items); [repeat constructor; spaced|].
    destruct (typeIs items "object"); repeat constructor; spaced. }
  destruct (s_properties schema) as [properties|].
  { cbn [fst lines]. apply fold_left_invariant; [constructor|].
    intros acc [propName prop] Hacc.
    apply Forall_push; [exact Hacc | unfold propertyLine; spaced]. }
  destruct (isPrimitive schema); [constructor|].
  destruct (typeString schema); constructor.
Qed.

Lemma schemaBlock_notHeading (sections : list string) (schemaName : string)
  (result : SchemaResult) :
  Forall notHeading sections -> Forall notHeading (lines result) ->
  Forall notHeading (schemaBlock sections schemaName result).
Proof.
  intros Hs Hl. unfold schemaBlock.
  apply Forall_push; [|vm_compute; discriminate].
  apply Forall_pushAll; [|exact Hl].
  apply Forall_push; [exact Hs | spaced].
Qed.

Lemma formatSchemas_notHeading (schemas : list (string * Schema)) :
  Forall notHeading (formatSchemas schemas).
Proof.
  unfold formatSchemas. apply fold_left_invariant.
  - repeat constructor; [vm_compute; discriminate | spaced].
  - intros sections [schemaName schemaObj] Hs.
    unfold formatSchemaEntry. cbv zeta.
    match goal with
    | |- context [formatSchema ?a ?b ?c ?d] =>
        pose proof (formatSchema_lines_notHeading a b c d) as Hl;
        destruct (formatSchema a b c d) as [result registry]
    end.
    apply fold_left_invariant.
    + now apply schemaBlock_notHeading.
    + intros acc [virtual virtualSchema] Hacc.
      pose proof (formatSchema_lines_notHeading virtualSchema "  " (Some virtual)
                    (Some [])) as Hv.
      destruct (formatSchema virtualSchema "  " (Some virtual) (Some []))
        as [virtualResult dropped].
      now apply schemaBlock_notHeading.
Qed.

Lemma trailingSections_notHeading (openApi : Document) :
  Forall notHeading (trailingSections openApi).
Proof.
  unfold trailingSections. apply Forall_app. split.
  - destruct (schemaTable openApi); [apply formatSchemas_notHeading | constructor].
  - destruct (securityTable openApi); [apply formatSecurity_notHeading | constructor].
Qed.

Lemma count_occ_notHeading (l : list string) :
  Forall notHeading l -> count_occ string_dec l endpointsHeading = 0.
Proof.
  intros H. apply count_occ_not_In. intros Hin.
  rewrite Forall_forall in H. now apply (H _ Hin).
Qed.

Lemma formatHeader_not_nil (info : Info) (servers : option (list Server)) :
  formatHeader info servers <> [].
Proof.
  unfold formatHeader.
  assert (Hpush : forall (l : list string) x, JS.push l x <> []).
  { intros l x. unfold JS.push. destruct l; discriminate. }
  destruct servers as [[|primaryServer [|server others]]|];
    try (destruct (JS.truthy (i_description info)); (apply Hpush || discriminate)).
  apply fold_left_invariant; [apply Hpush | intros; apply Hpush].
Qed.

(** C10.  Whatever the document, [formatEndpoints] is called once and
    pushes the ["\nENDPOINTS:\n"] heading once, and no other section the
    converter pushes equals it: the section list joined into the output
    holds the heading exactly once, and the output carries it right after
    the header text.  When [paths] is absent or empty the endpoints section
    is the heading alone, followed at once by the schema and security
    sections.  (The heading is counted as a section of the output: text
    copied from the document is not escaped and is not looked into.) *)
Theorem endpoints_heading_once (openApi : Document) :
  count_occ string_dec (documentSections openApi) endpointsHeading = 1 /\
  (exists rest,
     openApiToLlmText openApi
     = JS.join nl (formatHeader (d_info openApi) (headerServers openApi)) ++
       nl ++ endpointsHeading ++ rest) /\
  (d_paths openApi = None \/ d_paths openApi = Some [] ->
   formatEndpoints (pathsOf openApi) openApi = [endpointsHeading] /\
   documentSections openApi
   = (formatHeader (d_info openApi) (headerServers openApi) ++
      [endpointsHeading] ++ trailingSections openApi)%list).
Proof.
  destruct (formatEndpoints_heading (pathsOf openApi) openApi)
    as (body & Hbody & Hplain).
  split; [|split].
  - rewrite documentSections_shape, Hbody, !count_occ_app. simpl.
    destruct (string_dec endpointsHeading endpointsHeading) as [_|Hne];
      [|congruence].
    rewrite (count_occ_notHeading _ (formatHeader_notHeading _ _)),
      (count_occ_notHeading _ Hplain),
      (count_occ_notHeading _ (trailingSections_notHeading _)).
    reflexivity.
  - unfold openApiToLlmText. rewrite documentSections_shape, Hbody.
    rewrite join_app by (apply formatHeader_not_nil || discriminate).
    rewrite <- app_comm_cons.
    destruct (body ++ trailingSections openApi)%list as [|x more] eqn:E.
    + exists "". now rewrite app_empty_r.
    + exists (nl ++ JS.join nl (x :: more)).
      now rewrite join_cons by discriminate.
  - intros H. split.
    + unfold pathsOf. now destruct H as [-> | ->].
    + rewrite documentSections_shape. unfold pathsOf.
      now destruct H as [-> | ->].
Qed.

Lemma endpoints_heading_once_witness :
  documentSections (swaggerDocument None None None)
  = ["API: T v1"; endpointsHeading].
Proof.
  destruct (endpoints_heading_once (swaggerDocument None None None))
    as (_ & _ & H).
  destruct (H (or_introl eq_refl)) as [_ ->]. reflexivity.
Defined.

(** ** Property lines of the schema listing (claim C5) *)

Lemma fold_left_push_map {A B} (g : B -> A) (l : list B) (init : list A) :
  fold_left (fun acc x => JS.push acc (g x)) l init = (init ++ map g l)%list.
Proof.
  revert init. induction l as [|x l IH]; intros init; simpl.
  - now rewrite app_nil_r.
  - rewrite IH. unfold JS.push. now rewrite <- app_assoc.
Qed.

Lemma composition_None (s : Schema) :
  composition s = None ->
  s_allOf s = None /\ s_oneOf s = None /\ s_anyOf s = None.
Proof.
  unfold composition.
  destruct (s_allOf s), (s_oneOf s), (s_anyOf s); try discriminate; auto.
Qed.

(** What [formatSchema] returns for an object with properties. *)
Lemma formatSchema_object (schema : Schema) (indent : string)
  (parentSchemaName : option string) (registry : option Registry)
  (properties : list (string * Schema)) :
  composition schema = None -> typeIs schema "array" = false ->
  s_properties schema = Some properties ->
  formatSchema schema indent parentSchemaName registry
  = (mkResult "object"
       (map (fun entry =>
               propertyLine indent
                 (match s_required schema with Some r => r | None => [] end)
                 (fst entry) (snd entry))
          properties),
     registry).
Proof.
  intros Hc Harr Hprops. apply composition_None in Hc as (Hall & Hone & Hany).
  unfold formatSchema. rewrite Hall, Hone, Hany, Harr, Hprops.
  now rewrite fold_left_push_map.
Qed.

Lemma propertyBranch_named (branch : Schema) :
  branchNamed branch (propertyBranch branch).
Proof.
  unfold propertyBranch.
  destruct (JS.truthy (s_ref branch)) eqn:Href.
  - destruct (s_ref branch) as [ref|] eqn:E; [|discriminate].
    simpl. rewrite refName_afterLastSlash.
    apply named_by_reference; [exact E|].
    intros ->. discriminate.
  - unfold typeOrInline.
    destruct (s_type branch) as [[t|types]|] eqn:Hty.
    + destruct (t =? "") eqn:Ht.
      * apply String.eqb_eq in Ht. subst t.
        apply named_inline; [exact Href | now right].
      * apply String.eqb_neq in Ht. now apply named_by_type.
    + now apply named_by_type_list.
    + apply named_inline; [exact Href | now left].
Qed.

Lemma propertyType_composition (prop : Schema) (kind : string)
  (branches : list Schema) :
  s_ref prop = None -> composition prop = Some (kind, branches) ->
  propertyType prop = propertyComposition kind branches.
Proof.
  intros Href Hc. unfold propertyType, composition in *. rewrite Href.
  destruct (s_allOf prop); [now injection Hc as <- <-|].
  destruct (s_oneOf prop); [now injection Hc as <- <-|].
  destruct (s_anyOf prop); [now injection Hc as <- <-|].
  discriminate.
Qed.

(** C5.  In the body rendered for an object schema of the schema listing,
    every property has its line ["<indent>- <name><marker>: <type>"], and in
    it: a property that is a [$ref] has the type ["object"], whatever the
    reference names; a property that is a composition with exactly one
    branch, that branch being a reference (its string not empty, as the
    code tests it), has the trailing name of that reference as its type; a
    composition of two or more branches has ["<kind> [<names>]"], each
    branch named by its reference, by its declared type, or ["inline"]. *)
Theorem property_line_types
  (schema : Schema) (indent : string) (parentSchemaName : option string)
  (registry : option Registry) (properties : list (string * Schema))
  (propName : string) (prop : Schema) :
  composition schema = None -> typeIs schema "array" = false ->
  s_properties schema = Some properties -> In (propName, prop) properties ->
  let result := fst (formatSchema schema indent parentSchemaName registry) in
  let required := match s_required schema with Some r => r | None => [] end in
  let marker := if JS.includes required propName then "*" else "" in
  type result = "object" /\
  In (indent ++ "- " ++ propName ++ marker ++ ": " ++ propertyType prop)
    (lines result) /\
  (forall ref, s_ref prop = Some ref -> propertyType prop = "object") /\
  (forall kind branch ref,
     s_ref prop = None -> composition prop = Some (kind, [branch]) ->
     s_ref branch = Some ref -> ref <> "" ->
     propertyType prop = afterLastSlash ref) /\
  (forall kind branches,
     s_ref prop = None -> composition prop = Some (kind, branches) ->
     2 <= length branches ->
     exists names,
       propertyType prop = kind ++ " [" ++ JS.join ", " names ++ "]" /\
       Forall2 branchNamed branches names).
Proof.
  intros Hc Harr Hprops Hin result required marker.
  subst result.
  rewrite (formatSchema_object _ indent parentSchemaName registry _ Hc Harr Hprops).
  cbn [fst type lines].
  split; [reflexivity|]. split.
  - apply (in_map (fun entry => propertyLine indent required (fst entry) (snd entry))
             _ _ Hin).
  - split; [|split].
    + intros ref Href. unfold propertyType. now rewrite Href.
    + intros kind branch ref Hnone Hcomp Href Hne.
      rewrite (propertyType_composition _ _ _ Hnone Hcomp).
      unfold propertyComposition. simpl. rewrite Href. simpl.
      unfold propertyBranch. rewrite Href. simpl.
      apply String.eqb_neq in Hne. rewrite Hne. simpl.
      apply refName_afterLastSlash.
    + intros kind branches Hnone Hcomp Hlen.
      rewrite (propertyType_composition _ _ _ Hnone Hcomp).
      exists (map propertyBranch branches). split.
      * unfold propertyComposition.
        destruct branches as [|b1 [|b2 rest]]; simpl in Hlen; try lia.
        reflexivity.
      * clear. induction branches as [|b rest IH]; constructor;
          [apply propertyBranch_named | exact IH].
Qed.

Lemma property_line_types_witness :
  let owner := allOfSchema [referenceTo "#/components/schemas/User"] in
  let schema := objectWith [("owner", owner)] ["owner"] in
  In "  - owner*: User" (lines (fst (formatSchema schema "  " (Some "Pet") (Some [])))).
Proof.
  intros owner schema.
  destruct (property_line_types schema "  " (Some "Pet") (Some [])
              [("owner", owner)] "owner" owner
              eq_refl eq_refl eq_refl (or_introl eq_refl))
    as (_ & Hline & _ & Hsingle & _).
  rewrite (Hsingle "allOf" (referenceTo "#/components/schemas/User")
             "#/components/schemas/User" eq_refl eq_refl eq_refl) in Hline
    by discriminate.
  exact Hline.
Defined.

(** ** Virtual schemas (claim C1) *)

Lemma string_of_nat_inj (n m : nat) :
  JS.string_of_nat n = JS.string_of_nat m -> n = m.
Proof.
  unfold JS.string_of_nat. intros H.
  apply (f_equal NilEmpty.uint_of_string) in H.
  rewrite !NilEmpty.usu in H. injection H as H.
  apply (f_equal Nat.of_uint) in H.
  now rewrite !DecimalNat.Unsigned.of_to in H.
Qed.

(** Distinct ordinals give distinct virtual names. *)
Lemma virtualName_inj (parent : option string) (n m : nat) :
  virtualName parent n = virtualName parent m -> n = m.
Proof.
  unfold virtualName. intros H.
  apply app_cancel_l, app_cancel_l, app_cancel_l, app_cancel_r in H.
  now apply string_of_nat_inj.
Qed.

Lemma assign_fresh {A} (k : string) (v : A) (o : list (string * A)) :
  ~ In k (JS.keys o) -> JS.assign k v o = (o ++ [(k, v)])%list.
Proof.
  induction o as [|[k' v'] o IH]; simpl; intros Hk; [reflexivity|].
  destruct (k' =? k) eqn:E.
  - apply String.eqb_eq in E. tauto.
  - rewrite IH by tauto. reflexivity.
Qed.

Lemma keys_app {A} (o1 o2 : list (string * A)) :
  JS.keys (o1 ++ o2) = (JS.keys o1 ++ JS.keys o2)%list.
Proof. apply map_app. Qed.

(** The traversal of the branches against its specification: the names
    are [branchNames], and the registry grows by the inline object branches
    numbered from the current ordinal, as long as the names still to come
    are not keys of it yet. *)
Lemma mapBranches_spec (parent : string) (branches : list Schema) :
  forall (ordinal : nat) (registry : Registry),
    (forall n, ordinal <= n ->
               ~ In (virtualName (Some parent) n) (JS.keys registry)) ->
    mapBranches (Some parent) branches ordinal (Some registry)
    = (branchNames parent ordinal branches,
       Some (registry ++
             map (fun entry => (virtualName (Some parent) (fst entry), snd entry))
               (numbered ordinal (filter isInlineObject branches)))%list).
Proof.
  induction branches as [|s rest IH]; intros ordinal registry Hfresh; simpl.
  - now rewrite app_nil_r.
  - unfold isInlineObject, propertyBranch.
    destruct (JS.truthy (s_ref s)) eqn:Href; simpl.
    + now rewrite (IH ordinal registry Hfresh).
    + destruct (typeIs s "object" && isSome (s_properties s)) eqn:Hobj; simpl.
      * rewrite (assign_fresh _ _ _ (Hfresh ordinal (le_n _))).
        rewrite IH.
        -- now rewrite <- app_assoc.
        -- intros n Hn. rewrite keys_app, in_app_iff. simpl.
           intros [Hin | [Heq | []]].
           ++ apply (Hfresh n); [lia | exact Hin].
           ++ apply virtualName_inj in Heq. lia.
      * now rewrite (IH ordinal registry Hfresh).
Qed.

(** The name at each place of the branch list. *)
Lemma branchNames_nth (parent : string) (branches : list Schema) :
  forall (ordinal i : nat) (s : Schema),
    nth_error branches i = Some s ->
    nth_error (branchNames parent ordinal branches) i
    = Some (if isInlineObject s
            then virtualName (Some parent)
                   (ordinal + length (filter isInlineObject (firstn i branches)))
            else propertyBranch s).
Proof.
  induction branches as [|b rest IH]; intros ordinal i s Hnth.
  - destruct i; discriminate.
  - destruct i as [|i]; simpl in Hnth |- *.
    + injection Hnth as ->.
      destruct (isInlineObject s); simpl; [now rewrite Nat.add_0_r | reflexivity].
    + destruct (isInlineObject b); simpl; rewrite (IH _ _ _ Hnth);
        destruct (isInlineObject s); try reflexivity.
      do 2 f_equal. lia.
Qed.

Lemma branchNames_length (parent : string) (branches : list Schema) (ordinal : nat) :
  length (branchNames parent ordinal branches) = length branches.
Proof.
  revert ordinal. induction branches as [|b rest IH]; intros ordinal; simpl;
    [reflexivity|].
  destruct (isInlineObject b); simpl; now rewrite IH.
Qed.

Lemma formatSchema_composition (schema : Schema) (indent kind : string)
  (parentSchemaName : option string) (registry : option Registry)
  (branches : list Schema) :
  composition schema = Some (kind, branches) ->
  formatSchema schema indent parentSchemaName registry
  = formatComposition kind branches parentSchemaName registry.
Proof.
  unfold composition, formatSchema. intros Hc.
  destruct (s_allOf schema); [now injection Hc as <- <-|].
  destruct (s_oneOf schema); [now injection Hc as <- <-|].
  destruct (s_anyOf schema); [now injection Hc as <- <-|].
  discriminate.
Qed.

Lemma schemaBlock_app (sections : list string) (schemaName : string)
  (result : SchemaResult) :
  schemaBlock sections schemaName result
  = (sections ++
     ((schemaName ++ ": " ++ type result)%string :: lines result ++ [""]))%list.
Proof.
  unfold schemaBlock, JS.push, JS.pushAll.
  rewrite <- !app_assoc. reflexivity.
Qed.

(** One turn of the loop of [formatSchemas] appends the block of the
    parent and then the blocks of what its registry holds. *)
Lemma formatSchemaEntry_blocks (sections : list string) (schemaName : string)
  (schemaObj : Schema) :
  formatSchemaEntry sections (schemaName, schemaObj)
  = (sections ++ blockOf (schemaName, schemaObj) ++
     flat_map blockOf
       (match snd (formatSchema schemaObj "  " (Some schemaName) (Some [])) with
        | Some registry => registry
        | None => []
        end))%list.
Proof.
  unfold formatSchemaEntry, blockOf. cbv zeta. cbn [fst snd].
  match goal with
  | |- context [formatSchema ?a ?b ?c ?d] =>
      destruct (formatSchema a b c d) as [result registry]
  end.
  cbn [fst snd].
  set (virtuals := match registry with Some r => r | None => [] end).
  assert (E : forall init,
             fold_left
               (fun (sections0 : list string) (virtual : string * Schema) =>
                  let '(virtualName0, virtualSchema) := virtual in
                  let '(virtualResult, _) :=
                    formatSchema virtualSchema "  " (Some virtualName0) (Some []) in
                  schemaBlock sections0 virtualName0 virtualResult)
               virtuals init
             = (init ++ flat_map blockOf virtuals)%list).
  { induction virtuals as [|[vn vs] more IH]; intros init; simpl.
    - now rewrite app_nil_r.
    - rewrite IH. unfold blockOf at 2. cbn [fst snd].
      match goal with
      | |- context [formatSchema ?a ?b ?c ?d] =>
          destruct (formatSchema a b c d) as [vr dropped]
      end.
      cbn [fst]. rewrite schemaBlock_app. list_norm. reflexivity. }
  rewrite E, schemaBlock_app. list_norm. reflexivity.
Qed.

Lemma numbered_filter_In {A} (f : A -> bool) (l : list A) :
  forall (start i : nat) (x : A),
    nth_error l i = Some x -> f x = true ->
    In (start + length (filter f (firstn i l)), x) (numbered start (filter f l)).
Proof.
  induction l as [|y l IH]; intros start i x Hnth Hx.
  - destruct i; discriminate.
  - destruct i as [|i]; simpl in Hnth.
    + injection Hnth as ->. simpl. rewrite Hx. left. now rewrite Nat.add_0_r.
    + simpl. destruct (f y); simpl.
      * right. replace (start + S (length (filter f (firstn i l))))
          with (S start + length (filter f (firstn i l))) by lia.
        now apply IH.
      * now apply IH.
Qed.

(** C1, as amended.  For a top-level schema rendered as a composition
    (the first of allOf, oneOf, anyOf it has), the schema-listing pass
    registers every inline object branch (not a reference, type ['object'],
    with properties) as a virtual schema whose name is the text
    ["<" parent "__inline__" ordinal ">"], the angle brackets being part of
    the name; the ordinal starts at 1 for each parent and grows by one per
    inline object branch.  The branch list shows that name at the place of
    the branch, and the blocks of the virtual schemas follow the parent's
    block at once, in order. *)
Theorem inline_branches_become_virtual_schemas
  (parent : string) (schema : Schema) (kind : string) (branches : list Schema) :
  composition schema = Some (kind, branches) ->
  let names := branchNames parent 1 branches in
  formatSchema schema "  " (Some parent) (Some [])
  = (mkResult (kind ++ " [" ++ JS.join ", " names ++ "]") [],
     Some (virtualSchemas parent branches)) /\
  length names = length branches /\
  (forall i s,
     nth_error branches i = Some s -> isInlineObject s = true ->
     let ordinal := 1 + length (filter isInlineObject (firstn i branches)) in
     let name := "<" ++ parent ++ "__inline__" ++ JS.string_of_nat ordinal ++ ">" in
     nth_error names i = Some name /\
     In (name, s) (virtualSchemas parent branches)) /\
  (forall sections,
     formatSchemaEntry sections (parent, schema)
     = (sections ++
        [(parent ++ ": " ++ kind ++ " [" ++ JS.join ", " names ++ "]")%string;
         ""] ++
        flat_map blockOf (virtualSchemas parent branches))%list).
Proof.
  intros Hc names.
  assert (Hfs : formatSchema schema "  " (Some parent) (Some [])
                = (mkResult (kind ++ " [" ++ JS.join ", " names ++ "]") [],
                   Some (virtualSchemas parent branches))).
  { rewrite (formatSchema_composition _ _ _ _ _ _ Hc).
    unfold formatComposition.
    rewrite mapBranches_spec by (intros n _ []).
    reflexivity. }
  split; [exact Hfs|]. split; [apply branchNames_length|]. split.
  - intros i s Hnth Hinline ordinal name. split.
    + subst names. rewrite (branchNames_nth _ _ _ _ _ Hnth), Hinline.
      reflexivity.
    + unfold virtualSchemas.
      apply (in_map (fun entry => (virtualName (Some parent) (fst entry), snd entry))
               _ (ordinal, s)).
      now apply numbered_filter_In.
  - intros sections.
    rewrite formatSchemaEntry_blocks. unfold blockOf at 1. cbn [fst snd].
    rewrite Hfs. reflexivity.
Qed.

Lemma inline_branches_become_virtual_schemas_witness :
  formatSchemas [("Foo", fooSchema)]
  = ["SCHEMAS:"; "> * = required" ++ nl; "Foo: allOf [Bar, <Foo__inline__1>]"; "";
     "<Foo__inline__1>: object"; "  - x: string"; "  - y: integer"; ""].
Proof.
  destruct (inline_branches_become_virtual_schemas "Foo" fooSchema "allOf"
              [referenceTo "#/components/schemas/Bar";
               objectOf [("x", ofType "string"); ("y", ofType "integer")]]
              eq_refl) as (_ & _ & _ & Hblocks).
  unfold formatSchemas. cbn [fold_left]. rewrite Hblocks. reflexivity.
Defined.

(** C1 as it was stated fails on its own example: the one virtual schema
    of [Foo] is not named ["Foo__inline__1"]; the name registered and
    printed is ["<Foo__inline__1>"]. *)
Lemma virtual_schema_name_counterexample :
  snd (formatSchema fooSchema "  " (Some "Foo") (Some []))
  = Some [("<Foo__inline__1>",
           objectOf [("x", ofType "string"); ("y", ofType "integer")])] /\
  ~ In "Foo__inline__1: object" (formatSchemas [("Foo", fooSchema)]) /\
  In "<Foo__inline__1>: object" (formatSchemas [("Foo", fooSchema)]).
Proof.
  split; [reflexivity|]. split.
  - intros H. vm_compute in H. intuition discriminate.
  - vm_compute. intuition.
Qed.

(** ** Determinism (claim C8) *)

Lemma mapBranches_names (parentSchemaName : option string)
  (branches : list Schema) :
  forall (inlineCounter : nat) (r1 r2 : option Registry),
    fst (mapBranches parentSchemaName branches inlineCounter r1)
    = fst (mapBranches parentSchemaName branches inlineCounter r2).
Proof.
  induction branches as [|s rest IH]; intros inlineCounter r1 r2; simpl;
    [reflexivity|].
  destruct (JS.truthy (s_ref s)).
  - specialize (IH inlineCounter r1 r2).
    destruct (mapBranches parentSchemaName rest inlineCounter r1),
      (mapBranches parentSchemaName rest inlineCounter r2).
    simpl in *. now rewrite IH.
  - destruct (typeIs s "object" && isSome (s_properties s)).
    + match goal with
      | |- fst (let '(_, _) := mapBranches _ _ _ ?a in _)
           = fst (let '(_, _) := mapBranches _ _ _ ?b in _) =>
          specialize (IH (S inlineCounter) a b);
          destruct (mapBranches parentSchemaName rest (S inlineCounter) a),
            (mapBranches parentSchemaName rest (S inlineCounter) b)
      end.
      simpl in *. now rewrite IH.
    + specialize (IH inlineCounter r1 r2).
      destruct (mapBranches parentSchemaName rest inlineCounter r1),
        (mapBranches parentSchemaName rest inlineCounter r2).
      simpl in *. now rewrite IH.
Qed.

(** What [formatSchema] renders does not depend on the registry it is
    handed: the registry is only written. *)
Lemma formatSchema_registry_blind (schema : Schema) (indent : string)
  (parentSchemaName : option string) (r1 r2 : option Registry) :
  fst (formatSchema schema indent parentSchemaName r1)
  = fst (formatSchema schema indent parentSchemaName r2).
Proof.
  assert (Hcomp : forall kind branches,
             fst (formatComposition kind branches parentSchemaName r1)
             = fst (formatComposition kind branches parentSchemaName r2)).
  { intros kind branches. unfold formatComposition.
    pose proof (mapBranches_names parentSchemaName branches 1 r1 r2) as H.
    destruct (mapBranches parentSchemaName branches 1 r1),
      (mapBranches parentSchemaName branches 1 r2).
    simpl in *. now rewrite H. }
  unfold formatSchema.
  destruct (s_allOf schema); [apply Hcomp|].
  destruct (s_oneOf schema); [apply Hcomp|].
  destruct (s_anyOf schema); [apply Hcomp|].
  destruct (typeIs schema "array"); [reflexivity|].
  destruct (s_properties schema); [reflexivity|].
  destruct (isPrimitive schema); [reflexivity|].
  destruct (typeString schema); reflexivity.
Qed.

(** The block of a schema does not depend on what was rendered before
    it. *)
Lemma formatSchemaEntry_local (sections : list string) (entry : string * Schema) :
  formatSchemaEntry sections entry = (sections ++ formatSchemaEntry [] entry)%list.
Proof.
  destruct entry as [schemaName schemaObj].
  now rewrite (formatSchemaEntry_blocks sections), (formatSchemaEntry_blocks []).
Qed.

Lemma formatSchemas_app (before after : list (string * Schema)) :
  formatSchemas (before ++ after)
  = (formatSchemas before ++ flat_map (formatSchemaEntry []) after)%list.
Proof.
  unfold formatSchemas. rewrite fold_left_app.
  generalize (fold_left formatSchemaEntry before ["SCHEMAS:"; "> * = required" ++ nl]).
  induction after as [|entry after IH]; intros sections; simpl.
  - now rewrite app_nil_r.
  - rewrite IH, (formatSchemaEntry_local sections). now rewrite <- app_assoc.
Qed.

(** *** The registry on the heap *)

Lemma readObject_allocate (heap : list (list (string * Schema))) :
  readObject (fst (allocate heap)) (snd (allocate heap)) = [].
Proof. unfold readObject, allocate. simpl. now rewrite nth_middle. Qed.

Lemma allocate_fresh (heap : list (list (string * Schema))) :
  (fst (allocate heap) < length (snd (allocate heap)))%nat.
Proof. unfold allocate. simpl. rewrite length_app. simpl. lia. Qed.

Lemma writeObject_length (object : list (string * Schema))
  (heap : list (list (string * Schema))) :
  forall loc, length (writeObject loc object heap) = length heap.
Proof.
  induction heap as [|other rest IH]; intros [|loc]; simpl; try reflexivity.
  now rewrite IH.
Qed.

Lemma readObject_writeObject (object : list (string * Schema))
  (heap : list (list (string * Schema))) :
  forall loc, (loc < length heap)%nat ->
    readObject loc (writeObject loc object heap) = object.
Proof.
  unfold readObject.
  induction heap as [|other rest IH]; intros [|loc] H; simpl in *;
    try lia; [reflexivity|].
  apply IH. lia.
Qed.

(** Writing to the heap object is the threading of the registry: the
    names are the same, the object holds afterwards what [mapBranches]
    returns, and no object is added to the heap or removed from it. *)
Lemma mapBranchesInPlace_spec (parentSchemaName : option string) (loc : nat)
  (branches : list Schema) :
  forall (inlineCounter : nat) (heap : list (list (string * Schema))),
    (loc < length heap)%nat ->
    mapBranches parentSchemaName branches inlineCounter
      (Some (readObject loc heap))
    = (fst (mapBranchesInPlace parentSchemaName branches inlineCounter
              (Some loc) heap),
       Some (readObject loc
               (snd (mapBranchesInPlace parentSchemaName branches inlineCounter
                       (Some loc) heap)))) /\
    length (snd (mapBranchesInPlace parentSchemaName branches inlineCounter
                   (Some loc) heap))
    = length heap.
Proof.
  induction branches as [|s rest IH]; intros inlineCounter heap Hloc; simpl;
    [now split|].
  destruct (JS.truthy (s_ref s)).
  - destruct (IH inlineCounter heap Hloc) as [-> Hlen].
    destruct (mapBranchesInPlace parentSchemaName rest inlineCounter
                (Some loc) heap).
    now split.
  - destruct (typeIs s "object" && isSome (s_properties s)).
    + set (heap' := writeObject loc
                      (JS.assign (virtualName parentSchemaName inlineCounter) s
                         (readObject loc heap)) heap).
      assert (Hloc' : (loc < length heap')%nat)
        by (unfold heap'; now rewrite writeObject_length).
      destruct (IH (S inlineCounter) heap' Hloc') as [E Hlen].
      unfold heap' in E at 1. rewrite readObject_writeObject in E by exact Hloc.
      rewrite E.
      destruct (mapBranchesInPlace parentSchemaName rest (S inlineCounter)
                  (Some loc) heap').
      split; [reflexivity|].
      simpl in *. rewrite Hlen. unfold heap'. apply writeObject_length.
    + destruct (IH inlineCounter heap Hloc) as [-> Hlen].
      destruct (mapBranchesInPlace parentSchemaName rest inlineCounter
                  (Some loc) heap).
      now split.
Qed.

Lemma formatSchemaInPlace_spec (schema : Schema) (indent : string)
  (parentSchemaName : option string) (loc : nat)
  (heap : list (list (string * Schema))) :
  (loc < length heap)%nat ->
  formatSchema schema indent parentSchemaName (Some (readObject loc heap))
  = (fst (formatSchemaInPlace schema indent parentSchemaName (Some loc) heap),
     Some (readObject loc
             (snd (formatSchemaInPlace schema indent parentSchemaName
                     (Some loc) heap)))).
Proof.
  intros Hloc.
  assert (Hcomp : forall kind branches,
             formatComposition kind branches parentSchemaName
               (Some (readObject loc heap))
             = (fst (formatCompositionInPlace kind branches parentSchemaName
                       (Some loc) heap),
                Some (readObject loc
                        (snd (formatCompositionInPlace kind branches
                                parentSchemaName (Some loc) heap))))).
  { intros kind branches. unfold formatComposition, formatCompositionInPlace.
    destruct (mapBranchesInPlace_spec parentSchemaName loc branches 1 heap Hloc)
      as [-> _].
    now destruct (mapBranchesInPlace parentSchemaName branches 1 (Some loc) heap). }
  unfold formatSchemaInPlace, formatSchema.
  destruct (s_allOf schema); [apply Hcomp|].
  destruct (s_oneOf schema); [apply Hcomp|].
  destruct (s_anyOf schema); [apply Hcomp|].
  simpl.
  destruct (typeIs schema "array"); [reflexivity|].
  destruct (s_properties schema); [reflexivity|].
  destruct (isPrimitive schema); [reflexivity|].
  now destruct (typeString schema).
Qed.

(** On a registry that was just allocated, [formatSchema] renders what it
    renders on the empty registry. *)
Lemma formatSchemaInPlace_allocate (schema : Schema) (indent : string)
  (parentSchemaName : option string) (heap : list (list (string * Schema))) :
  formatSchema schema indent parentSchemaName (Some [])
  = (fst (formatSchemaInPlace schema indent parentSchemaName
            (Some (fst (allocate heap))) (snd (allocate heap))),
     Some (readObject (fst (allocate heap))
             (snd (formatSchemaInPlace schema indent parentSchemaName
                     (Some (fst (allocate heap))) (snd (allocate heap)))))).
Proof.
  rewrite <- (formatSchemaInPlace_spec schema indent parentSchemaName _ _
                (allocate_fresh heap)).
  now rewrite readObject_allocate.
Qed.

Lemma formatVirtualInPlace_sections (virtuals : list (string * Schema)) :
  forall (sections : list string) (heap : list (list (string * Schema))),
    fst (fold_left formatVirtualInPlace virtuals (sections, heap))
    = fold_left
        (fun sections (virtual : string * Schema) =>
           let '(virtualName, virtualSchema) := virtual in
           let '(virtualResult, _) :=
             formatSchema virtualSchema "  " (Some virtualName) (Some []) in
           schemaBlock sections virtualName virtualResult)
        virtuals sections.
Proof.
  induction virtuals as [|[virtualName virtualSchema] rest IH];
    intros sections heap; [reflexivity|].
  cbn [fold_left]. unfold formatVirtualInPlace at 2.
  rewrite (formatSchemaInPlace_allocate virtualSchema "  " (Some virtualName) heap).
  destruct (allocate heap) as [registry heap0]. cbn [fst snd].
  destruct (formatSchemaInPlace virtualSchema "  " (Some virtualName)
              (Some registry) heap0) as [virtualResult heap1].
  cbn [fst snd]. apply IH.
Qed.

Lemma formatSchemaEntryInPlace_sections (sections : list string)
  (heap : list (list (string * Schema))) (entry : string * Schema) :
  fst (formatSchemaEntryInPlace (sections, heap) entry)
  = formatSchemaEntry sections entry.
Proof.
  destruct entry as [schemaName schemaObj].
  unfold formatSchemaEntryInPlace, formatSchemaEntry.
  rewrite (formatSchemaInPlace_allocate schemaObj "  " (Some schemaName) heap).
  destruct (allocate heap) as [registry heap0]. cbn [fst snd].
  destruct (formatSchemaInPlace schemaObj "  " (Some schemaName)
              (Some registry) heap0) as [result heap1].
  cbn [fst snd]. apply formatVirtualInPlace_sections.
Qed.

Lemma formatSchemasInPlace_sections (schemas : list (string * Schema))
  (heap : list (list (string * Schema))) :
  fst (formatSchemasInPlace schemas heap) = formatSchemas schemas.
Proof.
  unfold formatSchemasInPlace, formatSchemas.
  generalize ["SCHEMAS:"; "> * = required" ++ nl]. revert heap.
  induction schemas as [|entry rest IH]; intros heap sections; [reflexivity|].
  cbn [fold_left].
  rewrite (surjective_pairing (formatSchemaEntryInPlace (sections, heap) entry)).
  rewrite formatSchemaEntryInPlace_sections. apply IH.
Qed.

(** Whatever the heap holds, an invocation returns the text of the
    converter. *)
Lemma openApiToLlmTextInPlace_text (openApi : Document)
  (heap : list (list (string * Schema))) :
  fst (openApiToLlmTextInPlace openApi heap) = openApiToLlmText openApi.
Proof.
  unfold openApiToLlmTextInPlace, openApiToLlmText.
  rewrite documentSections_shape. unfold trailingSections, JS.pushAll.
  destruct (schemaTable openApi) as [schemas|].
  - rewrite <- (formatSchemasInPlace_sections schemas heap).
    destruct (formatSchemasInPlace schemas heap) as [listing heap'].
    cbn [fst snd].
    destruct (securityTable openApi);
      rewrite <- ?app_assoc, ?app_nil_r; reflexivity.
  - cbn [fst snd].
    destruct (securityTable openApi);
      rewrite <- ?app_assoc, ?app_nil_r; reflexivity.
Qed.

(** C8.  Two invocations on the same document return the same string.
    The invocations run one after the other over the same heap, the
    second on the heap as the first left it, with the registries the first
    allocated and filled still in it.  The second returns what the first
    returned, which is the text of the converter; the same holds when
    the earlier invocation was on another document.  Every registry an
    invocation reads is one it allocated itself, empty, so nothing an
    earlier invocation wrote is ever read. *)
Theorem openApiToLlmText_deterministic
  (openApi : Document) (heap : list (list (string * Schema))) :
  let first := openApiToLlmTextInPlace openApi heap in
  let second := openApiToLlmTextInPlace openApi (snd first) in
  fst second = fst first /\
  fst first = openApiToLlmText openApi /\
  forall earlier : Document,
    fst (openApiToLlmTextInPlace openApi
           (snd (openApiToLlmTextInPlace earlier heap)))
    = fst first.
Proof.
  intros first second. unfold second, first.
  rewrite !openApiToLlmTextInPlace_text. split; [reflexivity|].
  split; [reflexivity|].
  intros earlier. apply openApiToLlmTextInPlace_text.
Qed.

(** The first invocation on the document of [Foo] leaves two objects on
    the heap: the registry of [Foo], holding its virtual schema, and the
    empty registry of that virtual schema.  The second invocation runs on
    that heap and prints [Foo] with one virtual schema, numbered 1
    again. *)
Lemma openApiToLlmText_deterministic_witness :
  let first := openApiToLlmTextInPlace fooDocument [] in
  snd first
  = [[("<Foo__inline__1>",
       objectOf [("x", ofType "string"); ("y", ofType "integer")])]; []] /\
  fst (openApiToLlmTextInPlace fooDocument (snd first))
  = JS.join nl ["API: T v1"; endpointsHeading; "SCHEMAS:"; "> * = required" ++ nl;
                "Foo: allOf [Bar, <Foo__inline__1>]"; "";
                "<Foo__inline__1>: object"; "  - x: string"; "  - y: integer"; ""].
Proof.
  intros first. split; [reflexivity|].
  destruct (openApiToLlmText_deterministic fooDocument [])
    as (Hsecond & Htext & _).
  cbv zeta in Hsecond. unfold first. rewrite Hsecond, Htext. reflexivity.
Defined.


(** * Further properties of the converter *)

(** ** Type descriptors *)

Lemma app_not_empty (a b : string) : a <> "" -> a ++ b <> "".
Proof. destruct a; [congruence | discriminate]. Qed.

Lemma unknownValue_not_empty (c : SchemaTypeContext) : unknownValue c <> "".
Proof. destruct c; discriminate. Qed.

Lemma or_else_not_empty (x : option string) (d : string) :
  d <> "" -> JS.or_else x d <> "".
Proof.
  intros Hd. unfold JS.or_else. destruct x as [s|]; [|exact Hd].
  destruct (s =? "") eqn:E; [exact Hd | now apply String.eqb_neq].
Qed.

Lemma typeIs_type (s : Schema) (name : string) :
  typeIs s name = true -> s_type s = Some (TypeName name).
Proof.
  unfold typeIs. destruct (s_type s) as [[t|l]|]; try discriminate.
  intros H. apply String.eqb_eq in H. now subst.
Qed.

Lemma typeString_not_empty (s : Schema) (t : string) :
  typeString s = Some t -> t <> "".
Proof.
  unfold typeString. destruct (s_type s) as [[u|l]|]; try discriminate.
  destruct (u =? "") eqn:E; [discriminate|].
  intros [= <-]. now apply String.eqb_neq.
Qed.

(** X1.  Whatever the schema node (present or absent) and the options,
    [resolveSchemaType] returns a descriptor that is not the empty string:
    every miss ends in a placeholder, so a ["Schema: "] or parameter line
    never lacks its type. *)
Theorem resolveSchemaType_not_empty
  (schema : option Schema) (options : ResolveSchemaTypeOptions) :
  resolveSchemaType schema options <> "".
Proof.
  destruct schema as [s|]; [|apply unknownValue_not_empty].
  assert (Hcomp : forall kind branches,
             kind <> "" ->
             compositionText (context options) kind branches <> "").
  { intros kind branches Hk. unfold compositionText.
    destruct (context options); try discriminate. now apply app_not_empty. }
  destruct s as [ref allOf oneOf anyOf ty items props req enum fmt].
  unfold resolveSchemaType, resolveSchemaNode; cbn [s_ref s_allOf s_oneOf s_anyOf
    s_items s_properties s_enum s_format].
  destruct ref as [ref|];
    [apply or_else_not_empty, unknownValue_not_empty|].
  destruct allOf; [apply Hcomp; discriminate|].
  destruct oneOf; [apply Hcomp; discriminate|].
  destruct anyOf; [apply Hcomp; discriminate|].
  set (node := mkSchema None None None None ty items props req enum fmt).
  destruct (typeIs node "array").
  { destruct (context options); try discriminate;
      destruct items as [it|]; try discriminate;
      destruct (s_ref it); try discriminate;
      destruct (typeIs it "object"); discriminate. }
  destruct (typeIs node "object").
  { match goal with |- (if ?b then _ else _) <> _ => destruct b end;
      discriminate. }
  destruct (typeIs node "string" || typeIs node "integer" || typeIs node "number")
    eqn:Hprim.
  { assert (Ht : exists t, typeString node = Some t).
    { apply orb_true_iff in Hprim as [Hprim|Hprim];
        [apply orb_true_iff in Hprim as [Hprim|Hprim]|];
        apply typeIs_type in Hprim; unfold typeString; rewrite Hprim;
        eexists; reflexivity. }
    destruct Ht as (t & Ht). rewrite Ht.
    pose proof (typeString_not_empty _ _ Ht) as Hne.
    destruct enum; [now apply app_not_empty|].
    match goal with |- (if ?b then _ else _) <> _ => destruct b end;
      [now apply app_not_empty | exact Hne]. }
  destruct (typeString node) as [t|] eqn:Ht;
    [exact (typeString_not_empty _ _ Ht) | apply unknownValue_not_empty].
Qed.

Lemma afterLastSlash_no_slash (s : string) : hasSlash (afterLastSlash s) = false.
Proof.
  induction s as [|c s IH]; [reflexivity|]. simpl.
  destruct (hasSlash s) eqn:Hs; [exact IH|].
  destruct (Ascii.eqb c "/") eqn:Hc; [exact Hs|].
  simpl. now rewrite Hc, Hs.
Qed.

(** X2.  The display name cut from a reference string never holds a
    ['/'], and cutting it again changes nothing. *)
Theorem refName_no_slash (ref : string) :
  hasSlash (refName ref) = false /\ refName (refName ref) = refName ref.
Proof.
  rewrite !refName_afterLastSlash. split.
  - apply afterLastSlash_no_slash.
  - apply afterLastSlash_none, afterLastSlash_no_slash.
Qed.

(** X3.  A parameter reference is resolved by its trailing name alone: the
    path in front of the last ['/'] is never looked at, so two references
    with the same trailing name resolve alike, as does the bare name. *)
Theorem resolveParameterRef_trailing_name
  (openApi : Document) (before1 before2 name : string) :
  hasSlash name = false ->
  resolveParameterRef (before1 ++ "/" ++ name) openApi
  = resolveParameterRef (before2 ++ "/" ++ name) openApi /\
  resolveParameterRef (before1 ++ "/" ++ name) openApi
  = resolveParameterRef name openApi.
Proof.
  intros Hname.
  rewrite !resolveParameterRef_collection.
  rewrite !(afterLastSlash_tail _ _ Hname), (afterLastSlash_none _ Hname).
  split; reflexivity.
Qed.

Lemma resolveParameterRef_trailing_name_witness :
  resolveParameterRef "#/components/schemas/limit"
    (documentWithParameters [("limit", bareParameter true)])
  = Some (bareParameter true).
Proof.
  exact (eq_trans
           (proj2 (resolveParameterRef_trailing_name
                     (documentWithParameters [("limit", bareParameter true)])
                     "#/components/schemas" "" "limit" eq_refl))
           eq_refl).
Defined.

(** X4.  Resolution is one hop: when the entry a reference names is itself
    a reference, it is rendered as it stands (no name, no location, type
    ["unknown"]) and the second reference is not followed. *)
Theorem parameter_reference_single_hop
  (openApi : Document) (ref ref2 : string) :
  resolveParameterRef ref openApi = Some (parameterRef ref2) ->
  formatParameters [parameterRef ref] openApi
  = ["  Parameters:";
     "    - undefined (undefined, unknown (optional)): No description"].
Proof.
  intros H. rewrite formatParameters_lines.
  unfold paramLinesOf, parameterStep. simpl. rewrite H. reflexivity.
Qed.

Lemma parameter_reference_single_hop_witness :
  formatParameters [parameterRef "#/components/parameters/alias"]
    (documentWithParameters
       [("alias", parameterRef "#/components/parameters/limit");
        ("limit", bareParameter true)])
  = ["  Parameters:";
     "    - undefined (undefined, unknown (optional)): No description"].
Proof.
  exact (parameter_reference_single_hop
           (documentWithParameters
              [("alias", parameterRef "#/components/parameters/limit");
               ("limit", bareParameter true)])
           "#/components/parameters/alias" "#/components/parameters/limit"
           eq_refl).
Defined.

Lemma paramLinesOf_length (openApi : Document) (parameters : list ParameterObject) :
  length (paramLinesOf openApi parameters)
  = length (filter (rendersParameter openApi) parameters).
Proof.
  induction parameters as [|p ps IH]; [reflexivity|].
  change (paramLinesOf openApi (p :: ps))
    with ((match parameterStep openApi p with
           | Some line => [line]
           | None => []
           end) ++ paramLinesOf openApi ps)%list.
  rewrite length_app, IH. simpl.
  unfold parameterStep, rendersParameter.
  destruct (p_ref p) as [ref|]; [|reflexivity].
  destruct (resolveParameterRef ref openApi); reflexivity.
Qed.

(** X5.  The parameter section has one line per entry that is no
    reference or whose reference resolves, plus the heading; with no such
    entry it is empty. *)
Theorem formatParameters_length
  (openApi : Document) (parameters : list ParameterObject) :
  length (formatParameters parameters openApi)
  = match length (filter (rendersParameter openApi) parameters) with
    | 0 => 0
    | S n => S (S n)
    end.
Proof.
  rewrite formatParameters_lines, <- paramLinesOf_length.
  now destruct (paramLinesOf openApi parameters).
Qed.

(** X6.  In parameter context the descriptor of a schema does not depend
    on its [items] nor on its [format]: array items and formats are never
    shown for a parameter. *)
Theorem parameter_context_ignores_items_and_format (schema : Schema) :
  resolveSchemaType (Some (withoutItemsAndFormat schema)) (inContext parameter)
  = resolveSchemaType (Some schema) (inContext parameter).
Proof.
  destruct schema as [ref allOf oneOf anyOf ty items props req enum fmt].
  unfold withoutItemsAndFormat, resolveSchemaType, resolveSchemaNode, typeIs,
    typeString; simpl.
  destruct ref; [reflexivity|]. destruct allOf; [reflexivity|].
  destruct oneOf; [reflexivity|]. destruct anyOf; [reflexivity|].
  repeat match goal with
         | |- context [if ?b then _ else _] => destruct b
         end; try reflexivity.
Qed.

Lemma resolveSchemaNode_arrayOf (items : Schema) (options : ResolveSchemaTypeOptions) :
  context options <> parameter ->
  s_ref items = None -> typeIs items "object" = false ->
  resolveSchemaNode (arrayOf items) options
  = "Array of " ++ resolveSchemaNode items options.
Proof.
  intros Hc Href Hobj.
  change (resolveSchemaNode (arrayOf items) options)
    with (match context options with
          | parameter => "array"
          | _ =>
              match s_ref items with
              | Some ref =>
                  "Array of " ++
                  JS.or_else (JS.pop (JS.split "/" ref))
                    (unknownValue (context options))
              | None =>
                  if typeIs items "object" then "Array of object"
                  else "Array of " ++ resolveSchemaNode items options
              end
          end).
  rewrite Href, Hobj. now destruct (context options).
Qed.

(** X7.  Arrays nest: outside parameter context, [depth] array wrappers
    around a schema (itself neither a reference nor declared ['object'])
    put ["Array of "] [depth] times in front of the descriptor of that
    schema; in parameter context any array is just ["array"]. *)
Theorem resolveSchemaType_nested_arrays
  (depth : nat) (inner : Schema) (options : ResolveSchemaTypeOptions) :
  context options <> parameter ->
  s_ref inner = None -> typeIs inner "object" = false ->
  resolveSchemaType (Some (nestedArray depth inner)) options
  = repeatText "Array of " depth ++ resolveSchemaType (Some inner) options /\
  resolveSchemaType (Some (nestedArray (S depth) inner)) (inContext parameter)
  = "array".
Proof.
  intros Hc Href Hobj. split; [|reflexivity].
  unfold resolveSchemaType.
  induction depth as [|d IH]; [reflexivity|].
  cbn [nestedArray repeatText].
  rewrite resolveSchemaNode_arrayOf; try assumption.
  - rewrite IH. now rewrite app_assoc_str.
  - now destruct d.
  - now destruct d.
Qed.

Lemma resolveSchemaType_nested_arrays_witness :
  resolveSchemaType (Some (nestedArray 3 (ofType "integer"))) (inContext response)
  = "Array of Array of Array of integer".
Proof.
  refine (eq_trans
            (proj1 (resolveSchemaType_nested_arrays 3 (ofType "integer")
                      (inContext response) _ eq_refl eq_refl))
            eq_refl).
  discriminate.
Defined.

(** X8.  Up to three properties the limit of the request-body context
    does not show: an object with one to three properties renders alike in
    request-body and response context, all names and no ["..."] marker; an
    object whose [properties] is empty renders as plain ["object"]. *)
Theorem resolveSchemaType_object_within_limit
  (schema : Schema) (props : list (string * Schema)) :
  s_ref schema = None -> s_allOf schema = None -> s_oneOf schema = None ->
  s_anyOf schema = None -> s_type schema = Some (TypeName "object") ->
  s_properties schema = Some props -> length props <= 3 ->
  resolveSchemaType (Some schema) (inContext requestBody)
  = resolveSchemaType (Some schema) (inContext response) /\
  resolveSchemaType (Some schema) (inContext response)
  = match props with
    | [] => "object"
    | _ :: _ => "Object (" ++ JS.join ", " (JS.keys props) ++ ")"
    end.
Proof.
  intros Href Hall Hone Hany Hty Hprops Hlen.
  destruct props as [|p props].
  - destruct schema; simpl in *; subst. split; reflexivity.
  - assert (Hne : p :: props <> []) by discriminate.
    rewrite (resolveSchemaType_object schema (inContext requestBody) _
               Href Hall Hone Hany Hty Hprops Hne eq_refl eq_refl).
    rewrite (resolveSchemaType_object schema (inContext response) _
               Href Hall Hone Hany Hty Hprops Hne eq_refl eq_refl).
    cbn [context inContext].
    assert (E : (3 <? length (p :: props))%nat = false)
      by (apply Nat.ltb_ge; exact Hlen).
    rewrite E. split; reflexivity.
Qed.

Lemma resolveSchemaType_object_within_limit_witness :
  resolveSchemaType
    (Some (objectOf [("a", emptySchema); ("b", emptySchema); ("c", emptySchema)]))
    (inContext requestBody)
  = "Object (a, b, c)".
Proof.
  destruct (resolveSchemaType_object_within_limit
              (objectOf [("a", emptySchema); ("b", emptySchema); ("c", emptySchema)])
              [("a", emptySchema); ("b", emptySchema); ("c", emptySchema)]
              eq_refl eq_refl eq_refl eq_refl eq_refl eq_refl (le_n 3))
    as [Hsame Hall].
  rewrite Hsame. exact Hall.
Defined.

(** ** Compositions *)

Lemma branchSummary_plain (s : Schema) :
  isInlineObject s = false -> branchSummary s = propertyBranch s.
Proof.
  unfold isInlineObject, branchSummary, propertyBranch.
  destruct (JS.truthy (s_ref s)); [reflexivity|]. simpl.
  now intros ->.
Qed.

Lemma mapBranches_plain (parentSchemaName : option string)
  (branches : list Schema) (inlineCounter : nat) (registry : option Registry) :
  Forall (fun b => isInlineObject b = false) branches ->
  mapBranches parentSchemaName branches inlineCounter registry
  = (map propertyBranch branches, registry).
Proof.
  induction 1 as [|s rest Hs _ IH]; [reflexivity|].
  simpl. unfold isInlineObject in Hs. unfold propertyBranch at 1.
  destruct (JS.truthy (s_ref s)); simpl in Hs.
  - now rewrite IH.
  - rewrite Hs. now rewrite IH.
Qed.

Lemma resolveSchemaNode_composition (schema : Schema)
  (options : ResolveSchemaTypeOptions) (kind : string) (branches : list Schema) :
  s_ref schema = None -> composition schema = Some (kind, branches) ->
  resolveSchemaNode schema options
  = compositionText (context options) kind branches.
Proof.
  intros Href Hc. destruct schema as [ref allOf oneOf anyOf ty items props req en fmt].
  unfold composition in Hc. simpl in *. subst ref.
  destruct allOf; [now injection Hc as <- <-|].
  destruct oneOf; [now injection Hc as <- <-|].
  destruct anyOf; [now injection Hc as <- <-|].
  discriminate.
Qed.

(** X9.  A composition none of whose branches is an inline object is
    named alike by both renderers: the request-body descriptor
    ["<kind>: [<names>]"] and the schema-listing summary ["<kind> [<names>]"]
    carry the same keyword (allOf before oneOf before anyOf) and the same
    branch names, and the listing registers no virtual schema. *)
Theorem composition_names_agree
  (schema : Schema) (kind indent : string) (branches : list Schema)
  (parentSchemaName : option string) (registry : option Registry) :
  s_ref schema = None -> composition schema = Some (kind, branches) ->
  Forall (fun b => isInlineObject b = false) branches ->
  let names := JS.join ", " (map propertyBranch branches) in
  resolveSchemaType (Some schema) (inContext requestBody)
  = kind ++ ": [" ++ names ++ "]" /\
  formatSchema schema indent parentSchemaName registry
  = (mkResult (kind ++ " [" ++ names ++ "]") [], registry).
Proof.
  intros Href Hc Hplain names. split.
  - unfold resolveSchemaType.
    rewrite (resolveSchemaNode_composition _ _ _ _ Href Hc).
    unfold compositionText. cbn [context inContext].
    replace (map branchSummary branches) with (map propertyBranch branches);
      [reflexivity|].
    clear - Hplain. induction Hplain as [|s rest Hs _ IH]; [reflexivity|].
    simpl. now rewrite IH, (branchSummary_plain _ Hs).
  - rewrite (formatSchema_composition _ _ _ _ _ _ Hc).
    unfold formatComposition. now rewrite (mapBranches_plain _ _ _ _ Hplain).
Qed.

Lemma composition_names_agree_witness :
  let schema :=
    mkSchema None None
      (Some [referenceTo "#/components/schemas/Cat"; ofType "string"; emptySchema])
      (Some [referenceTo "#/components/schemas/Dog"]) None None None None None None in
  resolveSchemaType (Some schema) (inContext requestBody)
  = "oneOf: [Cat, string, inline]" /\
  formatSchema schema "  " (Some "Pet") (Some [])
  = (mkResult "oneOf [Cat, string, inline]" [], Some []).
Proof.
  intros schema.
  apply (composition_names_agree schema "oneOf" "  "
           [referenceTo "#/components/schemas/Cat"; ofType "string"; emptySchema]
           (Some "Pet") (Some []) eq_refl eq_refl).
  repeat constructor.
Defined.

(** ** The schema listing *)

(** X10.  The body of an object schema of the listing has exactly one line
    per property, in the order of the object's own keys (the order of
    [Object.entries]); names that [required] lists without a property of
    that name add nothing, and the registry is left as it was. *)
Theorem formatSchema_object_lines
  (schema : Schema) (indent : string) (parentSchemaName : option string)
  (registry : option Registry) (properties : list (string * Schema)) :
  composition schema = None -> typeIs schema "array" = false ->
  s_properties schema = Some properties ->
  let output := formatSchema schema indent parentSchemaName registry in
  let required := match s_required schema with Some r => r | None => [] end in
  length (lines (fst output)) = length properties /\
  (forall i propName prop,
     nth_error properties i = Some (propName, prop) ->
     nth_error (lines (fst output)) i
     = Some (propertyLine indent required propName prop)) /\
  snd output = registry.
Proof.
  intros Hc Harr Hprops output required. subst output.
  rewrite (formatSchema_object _ indent parentSchemaName registry _ Hc Harr Hprops).
  cbn [fst snd lines]. split; [apply length_map|]. split; [|reflexivity].
  intros i propName prop Hnth.
  rewrite nth_error_map, Hnth. reflexivity.
Qed.

Lemma formatSchema_object_lines_witness :
  lines (fst (formatSchema
                (objectWith [("id", ofType "integer"); ("name", ofType "string")]
                   ["name"; "ghost"])
                "  " (Some "Pet") (Some [])))
  = ["  - id: integer"; "  - name*: string"].
Proof.
  destruct (formatSchema_object_lines
              (objectWith [("id", ofType "integer"); ("name", ofType "string")]
                 ["name"; "ghost"])
              "  " (Some "Pet") (Some [])
              [("id", ofType "integer"); ("name", ofType "string")]
              eq_refl eq_refl eq_refl) as (Hlen & Hnth & _).
  pose proof (Hnth 0 "id" (ofType "integer") eq_refl) as H0.
  pose proof (Hnth 1 "name" (ofType "string") eq_refl) as H1.
  destruct (lines _) as [|l0 [|l1 [|l2 more]]]; try discriminate Hlen.
  injection H0 as ->. injection H1 as ->. reflexivity.
Defined.

(** X11.  On a primitive of type string, integer or number (no
    reference, composition or properties) the schema listing and the
    response renderer agree: the type summary of [formatSchema] is the
    descriptor [resolveSchemaType] gives in response context, enum before
    format, and the body is empty. *)
Theorem formatSchema_primitive_agrees
  (schema : Schema) (indent : string) (parentSchemaName : option string)
  (registry : option Registry) :
  s_ref schema = None -> composition schema = None ->
  s_properties schema = None ->
  typeIs schema "string" || typeIs schema "integer" || typeIs schema "number" = true ->
  fst (formatSchema schema indent parentSchemaName registry)
  = mkResult (resolveSchemaType (Some schema) (inContext response)) [].
Proof.
  intros Href Hc Hprops Hprim.
  apply composition_None in Hc as (Hall & Hone & Hany).
  destruct schema as [ref allOf oneOf anyOf ty items props req en fmt].
  simpl in *. subst.
  assert (Hty : ty = Some (TypeName "string") \/ ty = Some (TypeName "integer") \/
                ty = Some (TypeName "number")).
  { apply orb_true_iff in Hprim as [Hprim|Hprim];
      [apply orb_true_iff in Hprim as [Hprim|Hprim]|];
      apply typeIs_type in Hprim; simpl in Hprim; auto. }
  destruct Hty as [-> | [-> | ->]];
    unfold formatSchema, resolveSchemaType, resolveSchemaNode, primitiveText;
    simpl; destruct en; try reflexivity;
    destruct (JS.truthy fmt); reflexivity.
Qed.

Lemma formatSchema_primitive_agrees_witness :
  fst (formatSchema
         (mkSchema None None None None (Some (TypeName "integer")) None None None
            None (Some "int64"))
         "  " (Some "Id") (Some []))
  = mkResult "integer (format: int64)" [].
Proof.
  exact (formatSchema_primitive_agrees
           (mkSchema None None None None (Some (TypeName "integer")) None None None
              None (Some "int64"))
           "  " (Some "Id") (Some []) eq_refl eq_refl eq_refl eq_refl).
Defined.

(** X12.  On an array the two renderers show the same item type: when
    the items are no reference, or a reference whose trailing name is not
    empty, the response descriptor is ["Array of <itemType>"] and the
    listing has the summary ["array"] with the single body line
    ["<indent>items: <itemType>"], for one and the same item type. *)
Theorem formatSchema_array_agrees
  (schema items : Schema) (indent : string) (parentSchemaName : option string)
  (registry : option Registry) :
  s_ref schema = None -> composition schema = None ->
  typeIs schema "array" = true -> s_items schema = Some items ->
  (s_ref items = None \/
   exists ref, s_ref items = Some ref /\ afterLastSlash ref <> "") ->
  exists itemType,
    resolveSchemaType (Some schema) (inContext response) = "Array of " ++ itemType /\
    fst (formatSchema schema indent parentSchemaName registry)
    = mkResult "array" [indent ++ "items: " ++ itemType].
Proof.
  intros Href Hc Harr Hitems Hit.
  apply composition_None in Hc as (Hall & Hone & Hany).
  assert (Hnode : resolveSchemaType (Some schema) (inContext response)
                  = match s_ref items with
                    | Some ref =>
                        "Array of " ++
                        JS.or_else (JS.pop (JS.split "/" ref)) "Unknown"
                    | None =>
                        if typeIs items "object" then "Array of object"
                        else "Array of " ++
                             resolveSchemaNode items (inContext response)
                    end).
  { destruct schema as [ref allOf oneOf anyOf ty its props req en fmt].
    simpl in *. subst. unfold resolveSchemaType.
    cbn [resolveSchemaNode s_ref s_allOf s_oneOf s_anyOf s_items].
    rewrite Harr. reflexivity. }
  assert (Hlist : fst (formatSchema schema indent parentSchemaName registry)
                  = mkResult "array" (itemsLines indent (Some items))).
  { unfold formatSchema. now rewrite Hall, Hone, Hany, Harr, Hitems. }
  rewrite Hnode, Hlist. unfold itemsLines.
  destruct Hit as [Hnone | (ref & Hsome & Hne)].
  - rewrite Hnone. destruct (typeIs items "object").
    + now exists "object".
    + now exists (resolveSchemaNode items (inContext response)).
  - rewrite Hsome, pop_split. exists (afterLastSlash ref).
    simpl. apply String.eqb_neq in Hne. now rewrite Hne.
Qed.

Lemma formatSchema_array_agrees_witness :
  resolveSchemaType (Some (arrayOf (referenceTo "#/components/schemas/Pet")))
    (inContext response) = "Array of Pet" /\
  fst (formatSchema (arrayOf (referenceTo "#/components/schemas/Pet")) "  "
         (Some "Pets") (Some []))
  = mkResult "array" ["  items: Pet"].
Proof.
  destruct (formatSchema_array_agrees
              (arrayOf (referenceTo "#/components/schemas/Pet"))
              (referenceTo "#/components/schemas/Pet") "  " (Some "Pets") (Some [])
              eq_refl eq_refl eq_refl eq_refl
              (or_intror (ex_intro _ "#/components/schemas/Pet"
                            (conj eq_refl
                               (fun H : afterLastSlash "#/components/schemas/Pet" = ""
                                => ltac:(discriminate H))))))
    as (itemType & Hresp & Hlist).
  assert (Hitem : itemType = "Pet").
  { vm_compute in Hlist. now inversion Hlist. }
  subst itemType. split; [exact Hresp | exact Hlist].
Defined.

Lemma numbered_ordinals {A} (l : list A) (start : nat) :
  map fst (numbered start l) = seq start (length l).
Proof.
  revert start. induction l as [|x l IH]; intros start; simpl;
    [reflexivity | now rewrite IH].
Qed.

Lemma numbered_values {A} (l : list A) (start : nat) :
  map snd (numbered start l) = l.
Proof.
  revert start. induction l as [|x l IH]; intros start; simpl;
    [reflexivity | now rewrite IH].
Qed.

Lemma lookup_In_NoDup {A} (o : list (string * A)) (k : string) (v : A) :
  NoDup (JS.keys o) -> In (k, v) o -> JS.lookup k o = Some v.
Proof.
  induction o as [|[k' v'] o IH]; intros Hnd Hin; [contradiction|].
  simpl in *. inversion Hnd as [|? ? Hnotin Hnd']; subst.
  destruct Hin as [[= -> ->] | Hin].
  - now rewrite String.eqb_refl.
  - destruct (k' =? k) eqn:E.
    + apply String.eqb_eq in E. subst k'.
      exfalso. apply Hnotin. apply (in_map fst _ _ Hin).
    + now apply IH.
Qed.

Lemma NoDup_map_injective {A B} (f : A -> B) (l : list A) :
  (forall x y, f x = f y -> x = y) -> NoDup l -> NoDup (map f l).
Proof.
  intros Hinj. induction 1 as [|x l Hx _ IH]; simpl; constructor; [|exact IH].
  intros Hin. apply in_map_iff in Hin as (y & Hy & Hin).
  apply Hinj in Hy. now subst.
Qed.

Lemma virtualSchemas_keys (parent : string) (branches : list Schema) :
  JS.keys (virtualSchemas parent branches)
  = map (virtualName (Some parent))
      (seq 1 (length (filter isInlineObject branches))).
Proof.
  unfold JS.keys, virtualSchemas. rewrite map_map. simpl.
  rewrite <- numbered_ordinals, map_map. reflexivity.
Qed.

Lemma virtualSchemas_values (parent : string) (branches : list Schema) :
  map snd (virtualSchemas parent branches) = filter isInlineObject branches.
Proof.
  unfold virtualSchemas. rewrite map_map. simpl. apply numbered_values.
Qed.

Lemma typeIs_object_not_array (s : Schema) :
  typeIs s "object" = true -> typeIs s "array" = false.
Proof. intros H. apply typeIs_type in H. unfold typeIs. now rewrite H. Qed.

Lemma formatSchema_registry (schema : Schema) (indent : string)
  (parentSchemaName : option string) (registry : option Registry) :
  composition schema = None ->
  snd (formatSchema schema indent parentSchemaName registry) = registry.
Proof.
  intros Hc. apply composition_None in Hc as (Hall & Hone & Hany).
  unfold formatSchema. rewrite Hall, Hone, Hany.
  destruct (typeIs schema "array"); [reflexivity|].
  destruct (s_properties schema); [reflexivity|].
  destruct (isPrimitive schema); [reflexivity|].
  now destruct (typeString schema).
Qed.

(** X13.  The registry [formatSchema] leaves for a parent, started
    empty, is well formed: its keys are pairwise different, so looking a
    virtual name up returns the branch registered under it; it holds one
    entry per inline object branch and nothing else (none at all for a
    schema that is no composition); and an entry that is no composition
    itself is listed as an ["object"]. *)
Theorem virtual_registry_well_formed
  (schema : Schema) (indent parent : string) (registry : Registry) :
  snd (formatSchema schema indent (Some parent) (Some [])) = Some registry ->
  NoDup (JS.keys registry) /\
  (forall name s, In (name, s) registry -> JS.lookup name registry = Some s) /\
  map snd registry
  = match composition schema with
    | Some (_, branches) => filter isInlineObject branches
    | None => []
    end /\
  Forall (fun entry =>
            composition (snd entry) = None ->
            type (fst (formatSchema (snd entry) "  " (Some (fst entry)) (Some [])))
            = "object")
    registry.
Proof.
  intros Hreg.
  assert (Hshape : registry
                   = match composition schema with
                     | Some (_, branches) => virtualSchemas parent branches
                     | None => []
                     end).
  { destruct (composition schema) as [[kind branches]|] eqn:Hc.
    - rewrite (formatSchema_composition _ _ _ _ _ _ Hc) in Hreg.
      unfold formatComposition in Hreg.
      rewrite mapBranches_spec in Hreg by (intros n _ []).
      simpl in Hreg. now injection Hreg as <-.
    - rewrite (formatSchema_registry _ _ _ _ Hc) in Hreg. now injection Hreg as <-. }
  assert (Hnd : NoDup (JS.keys registry)).
  { rewrite Hshape. destruct (composition schema) as [[kind branches]|];
      [|constructor].
    rewrite virtualSchemas_keys.
    apply NoDup_map_injective; [|apply seq_NoDup].
    intros n m. apply virtualName_inj. }
  split; [exact Hnd|]. split; [|split].
  - intros name s Hin. now apply lookup_In_NoDup.
  - rewrite Hshape. destruct (composition schema) as [[kind branches]|];
      [apply virtualSchemas_values | reflexivity].
  - assert (Hinline : Forall (fun s => isInlineObject s = true) (map snd registry)).
    { rewrite Hshape. destruct (composition schema) as [[kind branches]|];
        [|constructor].
      rewrite virtualSchemas_values. apply Forall_forall.
      intros s Hs. now apply filter_In in Hs. }
    rewrite Forall_map in Hinline.
    eapply Forall_impl; [|exact Hinline].
    intros [name s] Hs Hc. cbn [fst snd] in *.
    unfold isInlineObject in Hs.
    apply andb_true_iff in Hs as [Hs Hprops].
    apply andb_true_iff in Hs as [_ Hobj].
    destruct (s_properties s) as [props|] eqn:Hp; [|discriminate].
    now rewrite (formatSchema_object s "  " (Some name) (Some []) props Hc
                   (typeIs_object_not_array _ Hobj) Hp).
Qed.

Lemma virtual_registry_well_formed_witness :
  JS.lookup "<Foo__inline__1>"
    [("<Foo__inline__1>",
      objectOf [("x", ofType "string"); ("y", ofType "integer")])]
  = Some (objectOf [("x", ofType "string"); ("y", ofType "integer")]).
Proof.
  destruct (virtual_registry_well_formed fooSchema "  " "Foo"
              [("<Foo__inline__1>",
                objectOf [("x", ofType "string"); ("y", ofType "integer")])]
              eq_refl) as (_ & Hlookup & _).
  apply Hlookup. left. reflexivity.
Defined.

(** ** The whole output *)

Lemma formatHeader_head (info : Info) (servers : option (list Server)) :
  exists more,
    formatHeader info servers
    = ("API: " ++ JS.tmpl (i_title info) ++ " v" ++ JS.tmpl (i_version info))
      :: more.
Proof.
  unfold formatHeader.
  set (api := "API: " ++ JS.tmpl (i_title info) ++ " v" ++ JS.tmpl (i_version info)).
  assert (Hpush : forall l x, (exists more, l = api :: more) ->
                              exists more, JS.push l x = api :: more).
  { intros l x [more ->]. now exists (more ++ [x])%list. }
  assert (H2 : exists more,
             (if JS.truthy (i_description info)
              then JS.push [api] ("Description: " ++ JS.tmpl (i_description info))
              else [api]) = api :: more).
  { destruct (JS.truthy (i_description info)); eexists; reflexivity. }
  destruct servers as [[|primaryServer [|server others]]|]; try exact H2.
  - now apply Hpush.
  - apply fold_left_invariant; [now apply Hpush, Hpush|].
    intros acc sv Hacc. now apply Hpush.
Qed.

(** X14.  Whatever the document, the output begins with the line
    ["API: <title> v<version>"], a missing title or version printing as
    ["undefined"]. *)
Theorem output_begins_with_api_line (openApi : Document) :
  exists rest,
    openApiToLlmText openApi
    = "API: " ++ JS.tmpl (i_title (d_info openApi)) ++ " v" ++
      JS.tmpl (i_version (d_info openApi)) ++ rest.
Proof.
  unfold openApiToLlmText. rewrite documentSections_shape.
  destruct (formatHeader_head (d_info openApi) (headerServers openApi))
    as [more ->].
  destruct (formatEndpoints_heading (pathsOf openApi) openApi) as (body & -> & _).
  rewrite <- app_comm_cons.
  rewrite join_cons by (destruct more; discriminate).
  eexists. now rewrite !app_assoc_str.
Qed.

Lemma Closed_push (l : list string) : Closed (JS.push l "").
Proof. exists l, "". split; [reflexivity | now left]. Qed.

Lemma Closed_app (a b : list string) : Closed b -> Closed (a ++ b).
Proof.
  intros (front & x & -> & Hx). exists (a ++ front)%list, x.
  split; [now rewrite app_assoc | exact Hx].
Qed.

Lemma formatEndpoints_Closed (paths : list (string * option PathItem))
  (openApi : Document) :
  Closed (formatEndpoints paths openApi).
Proof.
  unfold formatEndpoints. apply fold_left_invariant.
  - exists [], endpointsHeading. split; [reflexivity|].
    right. exists (nl ++ "ENDPOINTS:"). reflexivity.
  - intros sections [path [pathItem|]] Hs; [|exact Hs].
    apply fold_left_invariant; [exact Hs|].
    intros acc method Hacc.
    destruct (JS.lookup method pathItem) as [[operation|]|]; try exact Hacc.
    apply Closed_app. unfold formatOperation. apply Closed_push.
Qed.

Lemma schemaBlock_Closed (sections : list string) (schemaName : string)
  (result : SchemaResult) :
  Closed (schemaBlock sections schemaName result).
Proof. unfold schemaBlock. apply Closed_push. Qed.

Lemma formatSchemas_Closed (schemas : list (string * Schema)) :
  Closed (formatSchemas schemas).
Proof.
  unfold formatSchemas. apply fold_left_invariant.
  - exists ["SCHEMAS:"], ("> * = required" ++ nl). split; [reflexivity|].
    right. now exists "> * = required".
  - intros sections [schemaName schemaObj] _.
    unfold formatSchemaEntry. cbv zeta.
    match goal with
    | |- context [formatSchema ?a ?b ?c ?d] =>
        destruct (formatSchema a b c d) as [result registry]
    end.
    apply fold_left_invariant; [apply schemaBlock_Closed|].
    intros acc [virtual virtualSchema] _.
    match goal with
    | |- context [formatSchema ?a ?b ?c ?d] =>
        destruct (formatSchema a b c d) as [virtualResult dropped]
    end.
    apply schemaBlock_Closed.
Qed.

Lemma endpoints_and_trailing_Closed (openApi : Document) :
  Closed (formatEndpoints (pathsOf openApi) openApi ++ trailingSections openApi).
Proof.
  unfold trailingSections.
  destruct (securityTable openApi) as [schemes|].
  - rewrite !app_assoc. apply Closed_app. unfold formatSecurity. apply Closed_push.
  - rewrite app_nil_r. destruct (schemaTable openApi) as [schemas|].
    + apply Closed_app, formatSchemas_Closed.
    + rewrite app_nil_r. apply formatEndpoints_Closed.
Qed.

(** X15.  Whatever the document, the output ends with a line feed: the
    last section is the empty section that closes an operation, a schema
    block or the security list, or it is a heading that ends in a line
    feed itself. *)
Theorem output_ends_with_line_feed (openApi : Document) :
  exists body, openApiToLlmText openApi = body ++ nl.
Proof.
  unfold openApiToLlmText. rewrite documentSections_shape.
  destruct (endpoints_and_trailing_Closed openApi) as (front & x & -> & Hx).
  rewrite app_assoc.
  rewrite join_app;
    [|intros E; apply app_eq_nil in E as [E _];
      exact (formatHeader_not_nil _ _ E) | discriminate].
  cbn [JS.join].
  destruct Hx as [-> | (b & ->)].
  - eexists. now rewrite app_empty_r.
  - eexists. now rewrite <- !app_assoc_str.
Qed.

(** ** The two document versions *)

Lemma fold_left_agree {A B} (f g : A -> B -> A) (l : list B) (init : A) :
  (forall a b, f a b = g a b) -> fold_left f l init = fold_left g l init.
Proof.
  intros H. revert init. induction l as [|x l IH]; intros init; simpl;
    [reflexivity | now rewrite H, IH].
Qed.

(** The endpoints section reads the document only to resolve parameter
    references. *)
Lemma formatEndpoints_agree (paths : list (string * option PathItem))
  (d d' : Document) :
  (forall ref, resolveParameterRef ref d = resolveParameterRef ref d') ->
  formatEndpoints paths d = formatEndpoints paths d'.
Proof.
  intros Hres.
  assert (Hparams : forall parameters,
             formatParameters parameters d = formatParameters parameters d').
  { intros parameters. unfold formatParameters.
    rewrite (fold_left_agree _
               (fun paramLines p =>
                  match parameterStep d' p with
                  | Some line => JS.push paramLines line
                  | None => paramLines
                  end)); [reflexivity|].
    intros acc p. unfold parameterStep.
    destruct (p_ref p) as [ref|]; [now rewrite Hres | reflexivity]. }
  assert (Hop : forall method path operation,
             formatOperation method path operation d
             = formatOperation method path operation d').
  { intros method path operation. unfold formatOperation.
    destruct (op_parameters operation) as [[|q qs]|]; try reflexivity.
    now rewrite Hparams. }
  unfold formatEndpoints. apply fold_left_agree.
  intros sections [path [pathItem|]]; [|reflexivity].
  apply fold_left_agree. intros acc method.
  destruct (JS.lookup method pathItem) as [[operation|]|]; try reflexivity.
  now rewrite Hop.
Qed.

(** X16.  The fields of the other version are never read.  For a Swagger
    2.0 document the output is the same whatever [servers] and [components]
    hold; for any other document it is the same whatever [host],
    [basePath], [schemes], [definitions], [securityDefinitions] and the
    top-level [parameters] hold. *)
Theorem other_version_fields_ignored (d : Document) :
  (isSwagger2 d = true ->
   forall servers components,
     openApiToLlmText (withOpenApi3Fields d servers components)
     = openApiToLlmText d) /\
  (isSwagger2 d = false ->
   forall host basePath schemes definitions securityDefinitions parameters,
     openApiToLlmText
       (withSwagger2Fields d host basePath schemes definitions
          securityDefinitions parameters)
     = openApiToLlmText d).
Proof.
  split.
  - intros Hsw servers components.
    unfold openApiToLlmText. f_equal.
    assert (Hsw' : isSwagger2 (withOpenApi3Fields d servers components) = true)
      by exact Hsw.
    unfold documentSections. rewrite Hsw, Hsw'.
    rewrite (formatEndpoints_agree _ (withOpenApi3Fields d servers components) d).
    + reflexivity.
    + intros ref. unfold resolveParameterRef. now rewrite Hsw, Hsw'.
  - intros Hsw host basePath schemes definitions securityDefinitions parameters.
    unfold openApiToLlmText. f_equal.
    set (d' := withSwagger2Fields d host basePath schemes definitions
                 securityDefinitions parameters).
    assert (Hsw' : isSwagger2 d' = false) by exact Hsw.
    unfold documentSections. rewrite Hsw, Hsw'.
    rewrite (formatEndpoints_agree _ d' d).
    + reflexivity.
    + intros ref. unfold resolveParameterRef. now rewrite Hsw, Hsw'.
Qed.

Lemma other_version_fields_ignored_witness :
  openApiToLlmText
    (withOpenApi3Fields (swaggerDocument (Some "api.x.com") (Some "/v1") None)
       (Some [mkServer (Some "https://ignored.example") None])
       (Some (mkComponents (Some [("Ghost", emptySchema)]) None None)))
  = openApiToLlmText (swaggerDocument (Some "api.x.com") (Some "/v1") None).
Proof.
  exact (proj1 (other_version_fields_ignored
                  (swaggerDocument (Some "api.x.com") (Some "/v1") None))
           eq_refl _ _).
Defined.

(** ** Endpoints *)

Lemma pathItem_operations (pathItem : PathItem) (path : string) (openApi : Document)
  (sections : list string) :
  NoDup (JS.keys pathItem) ->
  fold_left
    (fun sections method =>
       match JS.lookup method pathItem with
       | Some (Some operation) =>
           JS.pushAll sections (formatOperation method path operation openApi)
       | _ => sections
       end)
    (filter (JS.includes allPossibleMethods) (JS.keys pathItem)) sections
  = (sections ++
     flat_map (fun entry => formatOperation (fst entry) path (snd entry) openApi)
       (operationsOf pathItem))%list.
Proof.
  intros Hnd.
  set (g := fun method =>
              match JS.lookup method pathItem with
              | Some (Some operation) => formatOperation method path operation openApi
              | _ => []
              end).
  rewrite (fold_left_agree _ (fun acc method => JS.pushAll acc (g method))).
  2:{ intros acc method. unfold g.
      destruct (JS.lookup method pathItem) as [[operation|]|];
        [reflexivity | apply eq_sym, pushAll_nil | apply eq_sym, pushAll_nil]. }
  rewrite fold_left_pushAll. f_equal.
  assert (Hsub : forall l,
             (forall k v, In (k, v) l -> JS.lookup k pathItem = Some v) ->
             flat_map g (filter (JS.includes allPossibleMethods) (JS.keys l))
             = flat_map (fun entry => formatOperation (fst entry) path (snd entry) openApi)
                 (operationsOf l)).
  { induction l as [|[k v] l IH]; intros Hl; [reflexivity|].
    unfold operationsOf in *. cbn [JS.keys map filter flat_map fst snd].
    rewrite flat_map_app.
    specialize (IH (fun k' v' H => Hl k' v' (or_intror H))).
    unfold JS.keys in IH.
    destruct (JS.includes allPossibleMethods k); [|exact IH].
    cbn [flat_map]. rewrite IH. f_equal.
    unfold g. rewrite (Hl k v (or_introl eq_refl)).
    destruct v as [operation|]; [|reflexivity].
    cbn [flat_map fst snd]. now rewrite app_nil_r. }
  apply Hsub. intros k v Hin. now apply lookup_In_NoDup.
Qed.

(** X17.  The endpoints section is the heading followed by the blocks
    of the operations, path by path in the order of [paths] and, within a
    path, in the order of the path item's own keys (not in the order of the
    method list); keys that are no HTTP method, methods that hold no
    operation and paths without an item contribute nothing. *)
Theorem formatEndpoints_operations
  (paths : list (string * option PathItem)) (openApi : Document) :
  Forall (fun entry => match snd entry with
                       | Some pathItem => NoDup (JS.keys pathItem)
                       | None => True
                       end) paths ->
  formatEndpoints paths openApi
  = endpointsHeading ::
    flat_map
      (fun entry =>
         match snd entry with
         | Some pathItem =>
             flat_map
               (fun operation =>
                  formatOperation (fst operation) (fst entry) (snd operation) openApi)
               (operationsOf pathItem)
         | None => []
         end)
      paths.
Proof.
  intros Hnd. unfold formatEndpoints.
  assert (Hgen : forall sections,
             fold_left
               (fun sections entry =>
                  let '(path, pathItem) := entry in
                  match pathItem with
                  | None => sections
                  | Some pathItem =>
                      fold_left
                        (fun sections method =>
                           match JS.lookup method pathItem with
                           | Some (Some operation) =>
                               JS.pushAll sections
                                 (formatOperation method path operation openApi)
                           | _ => sections
                           end)
                        (filter (JS.includes allPossibleMethods) (JS.keys pathItem))
                        sections
                  end)
               paths sections
             = (sections ++
                flat_map
                  (fun entry =>
                     match snd entry with
                     | Some pathItem =>
                         flat_map
                           (fun operation =>
                              formatOperation (fst operation) (fst entry)
                                (snd operation) openApi)
                           (operationsOf pathItem)
                     | None => []
                     end)
                  paths)%list).
  { induction Hnd as [|[path item] rest Hitem _ IH]; intros sections; simpl.
    - now rewrite app_nil_r.
    - destruct item as [pathItem|]; simpl in *.
      + rewrite (pathItem_operations _ _ _ _ Hitem), IH.
        now rewrite <- app_assoc.
      + apply IH. }
  apply Hgen.
Qed.

Lemma formatEndpoints_operations_witness :
  formatEndpoints
    [("/a", None);
     ("/pets", Some [("parameters", None);
                     ("post", Some (mkOperation None None None None));
                     ("get", Some (mkOperation None None None None));
                     ("head", None)])]
    endToEndDocument
  = [endpointsHeading; "POST /pets"; ""; "GET /pets"; ""].
Proof.
  refine (eq_trans (formatEndpoints_operations _ endToEndDocument _) eq_refl).
  repeat constructor; simpl; intuition discriminate.
Defined.

(** ** Responses, security, header *)

Lemma fold_left_map {A B C} (f : A -> C -> A) (g : B -> C) (l : list B) (init : A) :
  fold_left f (map g l) init = fold_left (fun a x => f a (g x)) l init.
Proof.
  revert init. induction l as [|x l IH]; intros init; simpl;
    [reflexivity | apply IH].
Qed.

(** X18.  The [content] of a response comes first: when it is there, the
    response's own [schema] (the Swagger 2.0 place) is never read, also
    when the content map is empty; the responses section is the one of the
    same responses without those schemas. *)
Theorem formatResponses_content_shadows_schema (responses : list (string * Response)) :
  formatResponses
    (map (fun entry => (fst entry, withoutShadowedSchema (snd entry))) responses)
  = formatResponses responses.
Proof.
  unfold formatResponses. rewrite fold_left_map.
  apply fold_left_agree. intros sections [statusCode resp].
  unfold withoutShadowedSchema. cbn [fst snd].
  now destruct resp as [description [content|] schema].
Qed.

Lemma securityLine_known (schemeObj : SecurityScheme) :
  isSome (securityLine schemeObj) = knownScheme schemeObj.
Proof.
  unfold securityLine, knownScheme.
  destruct (ss_type schemeObj) as [type|]; [|reflexivity].
  repeat match goal with
         | |- context [match ?x with _ => _ end] =>
             is_var x; destruct x
         | |- context [match ss_scheme schemeObj with _ => _ end] =>
             destruct (ss_scheme schemeObj)
         end;
    try reflexivity.
Qed.

Lemma securityLine_dash (schemeObj : SecurityScheme) (line : string) :
  securityLine schemeObj = Some line -> exists text, line = "- " ++ text.
Proof.
  unfold securityLine. intros E.
  repeat match type of E with
         | match ?x with _ => _ end = _ => destruct x
         end;
    try discriminate; injection E as <-; eexists; reflexivity.
Qed.

(** X19.  The security section is the ["SECURITY:"] heading, one line
    beginning with ["- "] for every scheme whose [type] is one of oauth2,
    apiKey, http, openIdConnect and basic, in order, and a closing empty
    section; a scheme of any other type, or without type, is left out
    without a trace.  The lines come in the order of the schemes: the
    i-th line is the line of the i-th scheme of a known type. *)
Theorem formatSecurity_known_schemes
  (securitySchemes : list (string * SecurityScheme)) :
  exists schemeLines,
    formatSecurity securitySchemes = ("SECURITY:" :: schemeLines ++ [""])%list /\
    length schemeLines
    = length (filter (fun entry => knownScheme (snd entry)) securitySchemes) /\
    Forall2 (fun entry line => securityLine (snd entry) = Some line)
      (filter (fun entry => knownScheme (snd entry)) securitySchemes)
      schemeLines /\
    Forall (fun line => exists text, line = "- " ++ text) schemeLines /\
    formatSecurity
      (filter (fun entry => knownScheme (snd entry)) securitySchemes)
    = formatSecurity securitySchemes.
Proof.
  set (lineOf := fun entry : string * SecurityScheme =>
                   match securityLine (snd entry) with
                   | Some line => [line]
                   | None => []
                   end).
  assert (Hfold : forall l init,
             fold_left
               (fun sections (entry : string * SecurityScheme) =>
                  match securityLine (snd entry) with
                  | Some line => JS.push sections line
                  | None => sections
                  end) l init
             = (init ++ flat_map lineOf l)%list).
  { induction l as [|entry l IH]; intros init; simpl.
    - now rewrite app_nil_r.
    - rewrite IH. unfold lineOf at 2.
      destruct (securityLine (snd entry)); [|reflexivity].
      unfold JS.push. now rewrite <- app_assoc. }
  assert (Hshape : forall l,
             formatSecurity l = ("SECURITY:" :: flat_map lineOf l ++ [""])%list).
  { intros l. unfold formatSecurity. now rewrite Hfold. }
  exists (flat_map lineOf securitySchemes).
  split; [apply Hshape|]. split; [|split; [|split]].
  - induction securitySchemes as [|entry l IH]; [reflexivity|].
    cbn [flat_map filter]. rewrite length_app, IH.
    rewrite <- securityLine_known. unfold lineOf at 1.
    now destruct (securityLine (snd entry)).
  - induction securitySchemes as [|entry l IH]; [constructor|].
    cbn [flat_map filter]. rewrite <- securityLine_known. unfold lineOf at 1.
    destruct (securityLine (snd entry)) as [line|] eqn:E; cbn [isSome app].
    + constructor; [exact E | exact IH].
    + exact IH.
  - induction securitySchemes as [|entry l IH]; [constructor|].
    cbn [flat_map]. apply Forall_app. split; [|exact IH].
    unfold lineOf. destruct (securityLine (snd entry)) as [line|] eqn:E;
      [|constructor].
    constructor; [|constructor]. exact (securityLine_dash _ _ E).
  - rewrite !Hshape. do 2 f_equal.
    induction securitySchemes as [|entry l IH]; [reflexivity|].
    cbn [flat_map filter]. rewrite <- securityLine_known.
    destruct (securityLine (snd entry)) as [line|] eqn:E; cbn [isSome].
    + cbn [flat_map]. rewrite IH. unfold lineOf at 1 3. now rewrite E.
    + rewrite IH. unfold lineOf at 2. now rewrite E.
Qed.

(** X20.  Servers in the header: the header of a document with servers
    is the header without any, then the ["Base URL"] line of the first
    server and, only when there are more, the ["Additional URLs:"] heading
    with one line per further server in order; an empty server list adds
    nothing. *)
Theorem formatHeader_servers (info : Info) (servers : list Server) :
  formatHeader info (Some servers)
  = (formatHeader info None ++
     match servers with
     | [] => []
     | primaryServer :: others =>
         (nl ++ "Base URL: " ++ JS.tmpl (sv_url primaryServer))%string ::
         match others with
         | [] => []
         | _ :: _ => "Additional URLs:" :: map additionalUrl others
         end
     end)%list.
Proof.
  unfold formatHeader.
  destruct servers as [|primaryServer [|server others]].
  - now rewrite app_nil_r.
  - reflexivity.
  - rewrite fold_left_push_map. unfold JS.push.
    now rewrite <- !app_assoc.
Qed.

(** X21.  A Swagger 2.0 document that lacks a host or a base path (absent
    or empty) gets no base URL: the header is the one rendered without
    servers, whatever [schemes] holds, and it has no ["Base URL"] section. *)
Theorem swagger2_without_base_url (openApi : Document) :
  d_swagger openApi = Some "2.0" ->
  JS.truthy (d_host openApi) && JS.truthy (d_basePath openApi) = false ->
  documentSections openApi
  = (formatHeader (d_info openApi) None ++
     formatEndpoints (pathsOf openApi) openApi ++
     trailingSections openApi)%list /\
  forall url, ~ In (nl ++ "Base URL: " ++ url) (formatHeader (d_info openApi) None).
Proof.
  intros Hsw Hmiss. split.
  - rewrite documentSections_shape. do 2 f_equal.
    unfold headerServers, isSwagger2, swaggerBaseUrl. now rewrite Hsw, Hmiss.
  - intros url. unfold formatHeader.
    destruct (JS.truthy (i_description (d_info openApi))); simpl;
      intuition discriminate.
Qed.

Lemma swagger2_without_base_url_witness :
  documentSections (swaggerDocument (Some "api.x.com") None (Some ["http"]))
  = ["API: T v1"; endpointsHeading].
Proof.
  exact (eq_trans
           (proj1 (swagger2_without_base_url
                     (swaggerDocument (Some "api.x.com") None (Some ["http"]))
                     eq_refl eq_refl))
           eq_refl).
Defined.
